(** * Participant ledger chaincode (testcc.go): model and verified properties

    A shallow embedding of the chaincode [SimpleChaincode] of testcc.go:
    the [participant] record, the three operations [initParty], [readParty]
    and [transferPoints], and the dispatcher [Invoke].  Each operation is a
    function from the ledger stub and the arguments to the response and the
    stub after the call; the lines printed with [fmt.Println] are left out.

    The code runs against libraries that are not part of the repository.
    They are modelled as follows.
    - Go's [int] is the 64-bit two's complement integer of the platforms the
      ledger runs on; its arithmetic wraps around ([GoInt.wrap]).
    - [strconv.Atoi] follows the Go standard library: the digit loop of
      [ParseUint], the sign and the range check of [ParseInt].
    - A Go string is a sequence of bytes, not always valid UTF-8; [utf8]
      has the width of an encoded rune, as [utf8.DecodeRuneInString] finds
      it, and the replacement of invalid bytes by U+FFFD.
    - [strings.ToLower] is the byte-wise mapping of Go on ASCII text; the
      Unicode tables are an interface ([strings.CaseTables]).
    - [encoding/json] is an interface ([Codec]) with the laws the chaincode
      relies on: decoding what was encoded gives the record back with the
      invalid bytes of its strings replaced by U+FFFD.  [json] is an
      instance of it that writes the text Go writes for a participant.
    - [shim.ChaincodeStubInterface] is a world state with a log of the
      writes and with read and write faults ([ChaincodeStub]). *)

From Stdlib Require Import ZArith String Ascii List Lia Bool Strings.Byte.
From stdpp Require Import base tactics option list gmap strings.

Local Open Scope string_scope.
Local Open Scope Z_scope.

(** ** Go's [int] *)

Module GoInt.

Definition intSize : Z := 64.
Definition MinInt : Z := - 2 ^ (intSize - 1).
Definition MaxInt : Z := 2 ^ (intSize - 1) - 1.

(** The value an [int] holds: between [MinInt] and [MaxInt]. *)
Definition fits (z : Z) : Prop := MinInt <= z <= MaxInt.

(** Two's complement wrap-around of a mathematical result. *)
Definition wrap (z : Z) : Z :=
  (z + 2 ^ (intSize - 1)) mod 2 ^ intSize - 2 ^ (intSize - 1).

Definition add (a b : Z) : Z := wrap (a + b).
Definition sub (a b : Z) : Z := wrap (a - b).
Definition mul (a b : Z) : Z := wrap (a * b).
(** Go's [/] on integers truncates toward zero. *)
Definition div (a b : Z) : Z := wrap (Z.quot a b).

End GoInt.

(** ** strconv.Atoi *)

Module strconv.

Inductive NumError := ErrSyntax | ErrRange.

Definition isDigit (c : ascii) : bool :=
  (48 <=? Z.of_N (N_of_ascii c)) && (Z.of_N (N_of_ascii c) <=? 57).

Definition digitVal (c : ascii) : Z := Z.of_N (N_of_ascii c) - 48.

Definition maxUint64 : Z := 2 ^ 64 - 1.

(** The digit loop of [ParseUint] in base 10: a byte that is not a digit
    is a syntax error with value 0; an overflow stops the loop at once
    with the largest value and a range error. *)
Fixpoint parseDigits (s : string) (n : Z) : Z * option NumError :=
  match s with
  | EmptyString => (n, None)
  | String c s' =>
      if negb (isDigit c) then (0, Some ErrSyntax)
      else if maxUint64 / 10 + 1 <=? n then (maxUint64, Some ErrRange)
      else
        let n1 := n * 10 + digitVal c in
        if maxUint64 <? n1 then (maxUint64, Some ErrRange)
        else parseDigits s' n1
  end.

Definition ParseUint (s : string) : Z * option NumError :=
  match s with
  | EmptyString => (0, Some ErrSyntax)
  | _ => parseDigits s 0
  end.

(** [ParseInt(s, 10, 0)]: an optional sign, then [ParseUint]; a syntax
    error comes with the value 0, a range error with the bound of the
    sign's side. *)
Definition ParseInt (s : string) : Z * option NumError :=
  match s with
  | EmptyString => (0, Some ErrSyntax)
  | String c s' =>
      let neg := Ascii.eqb c "-" in
      let body := if Ascii.eqb c "+" || neg then s' else s in
      match ParseUint body with
      | (_, Some ErrSyntax) => (0, Some ErrSyntax)
      | (un, _) =>
          let cutoff := 2 ^ (GoInt.intSize - 1) in
          if negb neg && (cutoff <=? un) then (cutoff - 1, Some ErrRange)
          else if neg && (cutoff <? un) then (- cutoff, Some ErrRange)
          else (if neg then - un else un, None)
      end
  end.

(** [Atoi(s)] is [ParseInt(s, 10, 0)] converted to [int], with the error
    if there is one; the short path of the later Go versions for numerals
    of fewer than 19 bytes returns the same results. *)
Definition Atoi (s : string) : Z * option NumError := ParseInt s.

(** [Itoa]: the decimal numeral of an [int]. *)
Definition digitChar (d : Z) : ascii := ascii_of_N (Z.to_N (48 + d)).

Fixpoint formatDigits (fuel : nat) (n : Z) (acc : string) : string :=
  match fuel with
  | O => acc
  | S fuel' =>
      let acc' := String (digitChar (n mod 10)) acc in
      if n <? 10 then acc' else formatDigits fuel' (n / 10) acc'
  end.

Definition Itoa (z : Z) : string :=
  if z <? 0 then String "-" (formatDigits 20 (- z) EmptyString)
  else formatDigits 20 z EmptyString.

End strconv.

(** ** UTF-8 *)

Module utf8.

Definition byteOf (c : ascii) : Z := Z.of_N (N_of_ascii c).
Definition byteAt (z : Z) : ascii := ascii_of_N (Z.to_N z).

Definition between (lo hi : Z) (c : ascii) : bool :=
  (lo <=? byteOf c) && (byteOf c <=? hi).

(** The bytes after the first of an encoded rune. *)
Definition continuation (c : ascii) : bool := between 128 191 c.

(** [DecodeRuneInString]: the width of the rune encoded at the head of the
    string, and 0 where Go returns [RuneError] with width 1 (and for the
    empty string).  The second byte is restricted after E0, ED, F0 and F4,
    which excludes the over-long forms, the surrogate halves and the values
    above U+10FFFF. *)
Definition runeSize (s : string) : nat :=
  match s with
  | EmptyString => 0
  | String c0 s1 =>
      if byteOf c0 <? 128 then 1
      else if between 194 223 c0 then
        match s1 with
        | String c1 _ => if continuation c1 then 2 else 0
        | _ => 0
        end
      else if between 224 239 c0 then
        match s1 with
        | String c1 (String c2 _) =>
            if between (if byteOf c0 =? 224 then 160 else 128)
                       (if byteOf c0 =? 237 then 159 else 191) c1
               && continuation c2
            then 3 else 0
        | _ => 0
        end
      else if between 240 244 c0 then
        match s1 with
        | String c1 (String c2 (String c3 _)) =>
            if between (if byteOf c0 =? 240 then 144 else 128)
                       (if byteOf c0 =? 244 then 143 else 191) c1
               && continuation c2 && continuation c3
            then 4 else 0
        | _ => 0
        end
      else 0
  end.

(** [validFrom copy s]: [s] is valid UTF-8 after its first [copy] bytes,
    which belong to a rune already decoded. *)
Fixpoint validFrom (copy : nat) (s : string) : bool :=
  match s with
  | EmptyString => true
  | String c s' =>
      match copy with
      | S n => validFrom n s'
      | O =>
          match runeSize s with
          | O => false
          | S n => validFrom n s'
          end
      end
  end.

(** [utf8.ValidString]. *)
Definition ValidString (s : string) : bool := validFrom 0 s.

(** The bytes of U+FFFD, the replacement rune. *)
Definition replacement : string :=
  String (byteAt 239) (String (byteAt 191) (String (byteAt 189) EmptyString)).

(** [coerce s]: [s] with every byte that is not part of an encoded rune
    replaced by U+FFFD; the encoded runes are kept. *)
Fixpoint coerceFrom (copy : nat) (s : string) : string :=
  match s with
  | EmptyString => EmptyString
  | String c s' =>
      match copy with
      | S n => String c (coerceFrom n s')
      | O =>
          match runeSize s with
          | O => replacement +:+ coerceFrom 0 s'
          | S n => String c (coerceFrom n s')
          end
      end
  end.

Definition coerce (s : string) : string := coerceFrom 0 s.

Definition RuneError : Z := 65533.
Definition MaxRune : Z := 1114111.

(** [EncodeRune]: the bytes of a rune; a surrogate half and a value out of
    range are written as [RuneError]. *)
Definition EncodeRune (r : Z) : string :=
  if (0 <=? r) && (r <? 128) then String (byteAt r) EmptyString
  else if (128 <=? r) && (r <? 2048) then
    String (byteAt (192 + r / 64)) (String (byteAt (128 + r mod 64)) EmptyString)
  else if (r <? 0) || (MaxRune <? r) || ((55296 <=? r) && (r <=? 57343)) then
    replacement
  else if r <? 65536 then
    String (byteAt (224 + r / 4096))
      (String (byteAt (128 + (r / 64) mod 64))
         (String (byteAt (128 + r mod 64)) EmptyString))
  else
    String (byteAt (240 + r / 262144))
      (String (byteAt (128 + (r / 4096) mod 64))
         (String (byteAt (128 + (r / 64) mod 64))
            (String (byteAt (128 + r mod 64)) EmptyString))).

End utf8.

(** [agree n s t]: the first [n] bytes of [s] are there and are the first
    [n] bytes of [t]. *)
Fixpoint agree (n : nat) (s t : string) : Prop :=
  match n with
  | O => True
  | S m =>
      match s, t with
      | String a s', String b t' => a = b /\ agree m s' t'
      | _, _ => False
      end
  end.

(** Whether a string starts with a digit. *)
Definition headDigit (s : string) : bool :=
  match s with String c _ => strconv.isDigit c | EmptyString => false end.

(** ** strings.ToLower *)

Module strings.

Definition isUpper (c : ascii) : bool :=
  (65 <=? Z.of_N (N_of_ascii c)) && (Z.of_N (N_of_ascii c) <=? 90).

Definition isASCIIByte (c : ascii) : bool := Z.of_N (N_of_ascii c) <? 128.

Definition lowerByte (c : ascii) : ascii :=
  if isUpper c then ascii_of_N (N_of_ascii c + 32) else c.

Fixpoint isASCII (s : string) : bool :=
  match s with
  | EmptyString => true
  | String c s' => isASCIIByte c && isASCII s'
  end.

Fixpoint mapBytes (f : ascii -> ascii) (s : string) : string :=
  match s with
  | EmptyString => EmptyString
  | String c s' => String (f c) (mapBytes f s')
  end.

Fixpoint anyByte (f : ascii -> bool) (s : string) : bool :=
  match s with
  | EmptyString => false
  | String c s' => f c || anyByte f s'
  end.

(** The case mapping of text that is not pure ASCII comes from Go's
    Unicode tables.  Whatever they map, the lower-case form of a rune is
    never an upper-case ASCII letter, and the UTF-8 bytes of a rune that
    is not ASCII are all above 127.  The mapping goes rune by rune
    ([strings.Map]) and writes each mapped rune with its encoding, U+FFFD
    for a byte that is not part of an encoded rune: the result is valid
    UTF-8. *)
Class CaseTables := {
  unicodeToLower : string -> string;
  unicodeToLower_no_upper s : anyByte isUpper (unicodeToLower s) = false;
  unicodeToLower_valid s : utf8.ValidString (unicodeToLower s) = true
}.

(** [strings.ToLower]: on ASCII text the letters A-Z are shifted to a-z
    byte by byte; other text goes through the Unicode tables. *)
Definition ToLower `{CaseTables} (s : string) : string :=
  if isASCII s then mapBytes lowerByte s else unicodeToLower s.

End strings.

(** ** The participant record and its codec *)

Definition bytes := list byte.

Record participant := mkParticipant {
  ObjectType : string;
  Name : string;
  Category : string;
  Balance : Z
}.

Definition withBalance (p : participant) (b : Z) : participant :=
  {| ObjectType := ObjectType p; Name := Name p;
     Category := Category p; Balance := b |}.

(** The record with the invalid bytes of its strings replaced by U+FFFD. *)
Definition coerced (p : participant) : participant :=
  {| ObjectType := utf8.coerce (ObjectType p); Name := utf8.coerce (Name p);
     Category := utf8.coerce (Category p); Balance := Balance p |}.

(** Whether the strings of a record are valid UTF-8. *)
Definition validText (p : participant) : bool :=
  utf8.ValidString (ObjectType p) && utf8.ValidString (Name p)
  && utf8.ValidString (Category p).

(** [encoding/json] on [participant]: [Marshal] cannot fail on a struct of
    strings and an int (the error branch of lines 110 to 112 is never
    taken, and [transferPoints] drops the error); [Unmarshal] returns the
    message of its error or the decoded record.  The laws:
    - decoding what was encoded gives the record back, with every byte of
      its strings that is not part of an encoded rune replaced by U+FFFD:
      the encoder writes such a byte as the escape of U+FFFD.  On records
      of valid UTF-8 text this is the reversible encoding the
      specification assumes of the record codec;
    - the strings of a decoded record are valid UTF-8;
    - the balance decoded into the [int] field fits an [int];
    - empty input, which is what a nil slice is, gives the error
      [unexpected end of JSON input]. *)
Class Codec := {
  Marshal : participant -> bytes;
  Unmarshal : bytes -> string + participant;
  Unmarshal_Marshal p :
    GoInt.fits (Balance p) -> Unmarshal (Marshal p) = inr (coerced p);
  Unmarshal_valid b p : Unmarshal b = inr p -> validText p = true;
  Unmarshal_fits b p : Unmarshal b = inr p -> GoInt.fits (Balance p);
  Unmarshal_nil : Unmarshal [] = inl "unexpected end of JSON input"
}.

(** ** The ledger stub *)

(** The world state seen by one chaincode, the log of its [PutState] calls
    (latest first), and the faults of the store: the error, if any, that a
    read or a write of a key returns.  As the specification has it for the
    ledger store, a read sees the writes made before it, and a write that
    did not fail stays written when the invocation fails later. *)
Record ChaincodeStub := mkStub {
  State : gmap string bytes;
  Writes : list (string * bytes);
  GetFault : string -> option string;
  PutFault : string -> option string
}.

(** [GetState] returns the error, or the value with [None] for Go's nil. *)
Definition GetState (stub : ChaincodeStub) (key : string) : string + option bytes :=
  match GetFault stub key with
  | Some err => inl err
  | None => inr (State stub !! key)
  end.

Definition PutState (stub : ChaincodeStub) (key : string) (value : bytes)
  : string + ChaincodeStub :=
  match PutFault stub key with
  | Some err => inl err
  | None =>
      inr {| State := <[key := value]> (State stub);
             Writes := (key, value) :: Writes stub;
             GetFault := GetFault stub;
             PutFault := PutFault stub |}
  end.

(** [pb.Response]: [shim.Success(payload)] or [shim.Error(message)]. *)
Inductive Response :=
| Success (payload : option bytes)
| Error (message : string).

Definition isNil (b : option bytes) : bool :=
  match b with None => true | Some _ => false end.

(** A nil slice read as a byte sequence is empty. *)
Definition slice (b : option bytes) : bytes :=
  match b with Some data => data | None => [] end.

Definition quoteMark : string := String (ascii_of_N 34) EmptyString.

(** ** The chaincode *)

Section Chaincode.

Context `{codec : Codec} `{tables : strings.CaseTables}.

Definition initParty (stub : ChaincodeStub) (args : list string)
  : Response * ChaincodeStub :=
  match args with
  | [a0; a1; a2] =>
      if (String.length a0 <=? 0)%nat then
        (Error "1st argument must be a non-empty string", stub)
      else if (String.length a1 <=? 0)%nat then
        (Error "2nd argument must be a non-empty string", stub)
      else if (String.length a2 <=? 0)%nat then
        (Error "3rd argument must be a non-empty string", stub)
      else
        let partyName := a0 in
        let category := strings.ToLower a1 in
        match strconv.Atoi a2 with
        | (_, Some _) => (Error "3rd argument must be a numeric string", stub)
        | (balance, None) =>
            match GetState stub partyName with
            | inl err => (Error ("Failed to get Participant: " +:+ err), stub)
            | inr (Some _) =>
                (Error ("This Participant already exists: " +:+ partyName), stub)
            | inr None =>
                let objectType := "participant" in
                let party := mkParticipant objectType partyName category balance in
                let partyJSONasBytes := Marshal party in
                match PutState stub partyName partyJSONasBytes with
                | inl err => (Error err, stub)
                | inr stub' => (Success None, stub')
                end
            end
        end
  | _ =>
      (Error "Incorrect number of arguments. Expecting 3 (Name, Type, Balance)",
       stub)
  end.

Definition readParty (stub : ChaincodeStub) (args : list string)
  : Response * ChaincodeStub :=
  match args with
  | [name] =>
      match GetState stub name with
      | inl _ =>
          (Error ("{" +:+ quoteMark +:+ "Error" +:+ quoteMark +:+ ":" +:+ quoteMark
                  +:+ "Failed to get state for " +:+ name +:+ quoteMark +:+ "}"),
           stub)
      | inr None =>
          (Error ("{" +:+ quoteMark +:+ "Error" +:+ quoteMark +:+ ":" +:+ quoteMark
                  +:+ "particpant does not exist: " +:+ name +:+ quoteMark +:+ "}"),
           stub)
      | inr (Some valAsbytes) => (Success (Some valAsbytes), stub)
      end
  | _ =>
      (Error "Incorrect number of arguments. Expecting name of the Participant to query",
       stub)
  end.

Definition taxAuth : string := "TaxAuth".

(** The receiver and tax authority reads test [senderAsBytes] for nil, as
    the source does (lines 182 and 190). *)
Definition transferPoints (stub : ChaincodeStub) (args : list string)
  : Response * ChaincodeStub :=
  match args with
  | sender :: receiver :: points :: _ =>
      let pointsAsInt := fst (strconv.Atoi points) in
      match GetState stub sender with
      | inl err => (Error ("Failed to get Sender:" +:+ err), stub)
      | inr senderAsBytes =>
      if isNil senderAsBytes then (Error "Sender does not exist", stub) else
      match GetState stub receiver with
      | inl err => (Error ("Failed to get Receiver:" +:+ err), stub)
      | inr receiverAsBytes =>
      if isNil senderAsBytes then (Error "Receiver does not exist", stub) else
      match GetState stub taxAuth with
      | inl err => (Error ("Failed to get Tax_Authority:" +:+ err), stub)
      | inr taxAuthAsBytes =>
      if isNil senderAsBytes then (Error "Tax Authority does not exist", stub) else
      match Unmarshal (slice taxAuthAsBytes) with
      | inl err => (Error err, stub)
      | inr taxAuthority =>
      match Unmarshal (slice senderAsBytes) with
      | inl err => (Error err, stub)
      | inr senderTransfer =>
      match Unmarshal (slice receiverAsBytes) with
      | inl err => (Error err, stub)
      | inr receiverTranfer =>
      if String.eqb (Category senderTransfer) "TaxAuth" then
        (Error "Tax Authority cann't Participate in any transaction", stub)
      else if String.eqb (Category receiverTranfer) "TaxAuth" then
        (Error "Tax Authority cann't Participate in any transaction", stub)
      else if Balance senderTransfer <? pointsAsInt then
        (Error "There is no enough balance in the sender account", stub)
      else
        let senderTransfer :=
          withBalance senderTransfer (GoInt.sub (Balance senderTransfer) pointsAsInt) in
        let settled : string + participant * ChaincodeStub :=
          if String.eqb (Category receiverTranfer) "TaxExempt" then
            inr (withBalance receiverTranfer
                   (GoInt.add (Balance receiverTranfer) pointsAsInt), stub)
          else
            let taxPoints := GoInt.div (GoInt.mul pointsAsInt 2) 100 in
            let pointsAfterTax := GoInt.sub pointsAsInt taxPoints in
            let receiverTranfer :=
              withBalance receiverTranfer
                (GoInt.add (Balance receiverTranfer) pointsAfterTax) in
            let taxAuthority :=
              withBalance taxAuthority (GoInt.add (Balance taxAuthority) taxPoints) in
            let authorityJSONasBytes := Marshal taxAuthority in
            match PutState stub taxAuth authorityJSONasBytes with
            | inl err => inl err
            | inr stub1 => inr (receiverTranfer, stub1)
            end in
        match settled with
        | inl err => (Error err, stub)
        | inr (receiverTranfer, stub1) =>
            let senderJSONasBytes := Marshal senderTransfer in
            match PutState stub1 sender senderJSONasBytes with
            | inl err => (Error err, stub1)
            | inr stub2 =>
                let receiverJSONasBytes := Marshal receiverTranfer in
                match PutState stub2 receiver receiverJSONasBytes with
                | inl err => (Error err, stub2)
                | inr stub3 => (Success None, stub3)
                end
            end
        end
      end end end end end end
  | _ => (Error "Incorrect number of arguments. Expecting 3", stub)
  end.

(** [Invoke] with the function name and arguments that
    [GetFunctionAndParameters] returns. *)
Definition Invoke (stub : ChaincodeStub) (function : string) (args : list string)
  : Response * ChaincodeStub :=
  if String.eqb function "initParty" then initParty stub args
  else if String.eqb function "transferPoints" then transferPoints stub args
  else if String.eqb function "readParty" then readParty stub args
  else (Error "Received unknown function invocation", stub).

End Chaincode.

(** ** A JSON codec for the participant record

    The text [json.Marshal] writes for a participant: one object with the
    fields docType, name, category and balance in this order, no white
    space.  In a string the quotation mark, the backslash and the control
    characters are escaped, and so are the characters <, > and & and the
    runes U+2028 and U+2029; a byte that is not part of an encoded rune is
    written as the escape of U+FFFD.  The decoder reads this layout, with
    all the escapes of JSON; it copies an encoded rune and reads any other
    byte above 127 as U+FFFD. *)

Module json.

Definition dq : ascii := ascii_of_N 34.
Definition backslash : ascii := ascii_of_N 92.

(** [htmlSafeSet]: the ASCII bytes written as they are. *)
Definition htmlSafe (c : ascii) : bool :=
  let b := utf8.byteOf c in
  (32 <=? b) && (b <? 128)
  && negb ((b =? 34) || (b =? 38) || (b =? 60) || (b =? 62) || (b =? 92)).

(** The digits of [hex]. *)
Definition hexDigit (d : Z) : ascii :=
  utf8.byteAt (if d <? 10 then 48 + d else 87 + d).

(** The escape of an ASCII byte outside [htmlSafeSet]. *)
Definition escape (c : ascii) : string :=
  let b := utf8.byteOf c in
  String backslash
    (if (b =? 34) || (b =? 92) then String c EmptyString
     else if b =? 8 then "b"
     else if b =? 12 then "f"
     else if b =? 10 then "n"
     else if b =? 13 then "r"
     else if b =? 9 then "t"
     else "u00" +:+ String (hexDigit (b / 16))
                      (String (hexDigit (b mod 16)) EmptyString)).

(** The last digit of the escape of U+2028 or U+2029, when one of the two
    is encoded at the head of the string (E2 80 A8 and E2 80 A9). *)
Definition lineSeparator (s : string) : option ascii :=
  match s with
  | String c0 (String c1 (String c2 _)) =>
      if (utf8.byteOf c0 =? 226) && (utf8.byteOf c1 =? 128)
         && ((utf8.byteOf c2 =? 168) || (utf8.byteOf c2 =? 169))
      then Some (hexDigit (utf8.byteOf c2 - 160))
      else None
  | _ => None
  end.

(** [writeFrom keep n s k]: the rest of a string literal for the bytes [s],
    up to its closing mark, followed by [k].  The first [n] bytes of [s]
    belong to a rune already decoded: they are copied when [keep] is set
    and left out otherwise. *)
Fixpoint writeFrom (keep : bool) (n : nat) (s k : string) : string :=
  match s with
  | EmptyString => String dq k
  | String c s' =>
      match n with
      | S m =>
          if keep then String c (writeFrom keep m s' k) else writeFrom keep m s' k
      | O =>
          if utf8.byteOf c <? 128 then
            if htmlSafe c then String c (writeFrom true 0 s' k)
            else escape c +:+ writeFrom true 0 s' k
          else
            match utf8.runeSize s with
            | O => String backslash "ufffd" +:+ writeFrom true 0 s' k
            | S m =>
                match lineSeparator s with
                | Some h =>
                    String backslash "u202" +:+ String h (writeFrom false m s' k)
                | None => String c (writeFrom true m s' k)
                end
            end
      end
  end.

(** [writeString s k]: the string literal of [s], followed by [k]. *)
Definition writeString (s k : string) : string := String dq (writeFrom true 0 s k).

Definition key (name : string) : string := writeString name ":".

Definition encode (p : participant) : string :=
  "{" +:+ key "docType" +:+ writeString (ObjectType p)
  ("," +:+ key "name" +:+ writeString (Name p)
  ("," +:+ key "category" +:+ writeString (Category p)
  ("," +:+ key "balance" +:+ strconv.Itoa (Balance p) +:+ "}"))).

(** [expect lit s]: [s] without its prefix [lit]. *)
Fixpoint expect (lit s : string) : option string :=
  match lit, s with
  | EmptyString, _ => Some s
  | String a lit', String b s' => if Ascii.eqb a b then expect lit' s' else None
  | String _ _, EmptyString => None
  end.

Definition hexVal (c : ascii) : option Z :=
  let b := utf8.byteOf c in
  if (48 <=? b) && (b <=? 57) then Some (b - 48)
  else if (97 <=? b) && (b <=? 102) then Some (b - 87)
  else if (65 <=? b) && (b <=? 70) then Some (b - 55)
  else None.

(** [getu4]: the value of the escape of four hexadecimal digits at the
    head of the string, and the input after it. *)
Definition getu4 (s : string) : option (Z * string) :=
  match s with
  | String b (String u (String h3 (String h2 (String h1 (String h0 rest))))) =>
      if Ascii.eqb b backslash && Ascii.eqb u "u" then
        d3 ← hexVal h3; d2 ← hexVal h2; d1 ← hexVal h1; d0 ← hexVal h0;
        Some (d3 * 4096 + d2 * 256 + d1 * 16 + d0, rest)
      else None
  | _ => None
  end.

(** [utf16.DecodeRune]: the rune of a surrogate pair. *)
Definition decodeSurrogates (r1 r2 : Z) : Z :=
  if (55296 <=? r1) && (r1 <? 56320) && (56320 <=? r2) && (r2 <? 57344)
  then (r1 - 55296) * 1024 + (r2 - 56320) + 65536
  else utf8.RuneError.

(** The text of the escape at the head of [s], which starts with the
    backslash, and the number of bytes the escape takes after the
    backslash.  A surrogate half without its other half is read as
    U+FFFD. *)
Definition unescape (s : string) : option (string * nat) :=
  match s with
  | String _ (String e _) =>
      let b := utf8.byteOf e in
      if (b =? 34) || (b =? 92) || (b =? 47) then Some (String e EmptyString, 1%nat)
      else if b =? 98 then Some (String (utf8.byteAt 8) EmptyString, 1%nat)
      else if b =? 102 then Some (String (utf8.byteAt 12) EmptyString, 1%nat)
      else if b =? 110 then Some (String (utf8.byteAt 10) EmptyString, 1%nat)
      else if b =? 114 then Some (String (utf8.byteAt 13) EmptyString, 1%nat)
      else if b =? 116 then Some (String (utf8.byteAt 9) EmptyString, 1%nat)
      else if b =? 117 then
        match getu4 s with
        | Some (rr, rest) =>
            if (55296 <=? rr) && (rr <? 57344) then
              match getu4 rest with
              | Some (rr1, _) =>
                  if decodeSurrogates rr rr1 =? utf8.RuneError
                  then Some (utf8.replacement, 5%nat)
                  else Some (utf8.EncodeRune (decodeSurrogates rr rr1), 11%nat)
              | None => Some (utf8.replacement, 5%nat)
              end
            else Some (utf8.EncodeRune rr, 5%nat)
        | None => None
        end
      else None
  | _ => None
  end.

Definition prefixed (t : string) (r : option (string * string))
  : option (string * string) :=
  match r with
  | Some (u, rest) => Some (t +:+ u, rest)
  | None => None
  end.

(** [readFrom keep n s]: the bytes of a string literal whose rest is at
    the head of [s], and the input after its closing mark.  The first [n]
    bytes of [s] belong to a rune or an escape already read: they are
    copied when [keep] is set and left out otherwise.  A control character
    inside a literal is an error. *)
Fixpoint readFrom (keep : bool) (n : nat) (s : string) : option (string * string) :=
  match s with
  | EmptyString => None
  | String c s' =>
      match n with
      | S m =>
          if keep then prefixed (String c EmptyString) (readFrom keep m s')
          else readFrom keep m s'
      | O =>
          if Ascii.eqb c dq then Some (EmptyString, s')
          else if Ascii.eqb c backslash then
            match unescape s with
            | Some (t, m) => prefixed t (readFrom false m s')
            | None => None
            end
          else if utf8.byteOf c <? 32 then None
          else if utf8.byteOf c <? 128 then
            prefixed (String c EmptyString) (readFrom true 0 s')
          else
            match utf8.runeSize s with
            | O => prefixed utf8.replacement (readFrom true 0 s')
            | S m => prefixed (String c EmptyString) (readFrom true m s')
            end
      end
  end.

Definition readString (s : string) : option (string * string) :=
  match s with
  | String c s' => if Ascii.eqb c dq then readFrom true 0 s' else None
  | EmptyString => None
  end.

Definition isNumberByte (c : ascii) : bool := strconv.isDigit c || Ascii.eqb c "-".

Fixpoint spanNumber (s : string) : string * string :=
  match s with
  | EmptyString => (EmptyString, EmptyString)
  | String c s' =>
      if isNumberByte c then
        let (num, rest) := spanNumber s' in (String c num, rest)
      else (EmptyString, s)
  end.

Definition readInt (s : string) : option (Z * string) :=
  let (num, rest) := spanNumber s in
  match strconv.Atoi num with
  | (z, None) => Some (z, rest)
  | (_, Some _) => None
  end.

Definition decode (s : string) : option participant :=
  s ← expect ("{" +:+ key "docType") s;
  '(objectType, s) ← readString s;
  s ← expect ("," +:+ key "name") s;
  '(name, s) ← readString s;
  s ← expect ("," +:+ key "category") s;
  '(category, s) ← readString s;
  s ← expect ("," +:+ key "balance") s;
  '(balance, s) ← readInt s;
  if String.eqb s "}" then Some (mkParticipant objectType name category balance)
  else None.

Definition Marshal (p : participant) : bytes := list_byte_of_string (encode p).

Definition Unmarshal (b : bytes) : string + participant :=
  match b with
  | [] => inl "unexpected end of JSON input"
  | _ =>
      match decode (string_of_list_byte b) with
      | Some p => inr p
      | None => inl "invalid character looking for beginning of value"
      end
  end.

End json.

(** Whether a string is made of the bytes of a number. *)
Definition allNumber (s : string) : bool :=
  negb (strings.anyByte (fun c => negb (json.isNumberByte c)) s).

(** ** Reading the ledger and running the chaincode *)

Section Ledger.

Context `{codec : Codec} `{tables : strings.CaseTables}.

(** The participant decoded from the value stored under a key. *)
Definition stored (stub : ChaincodeStub) (key : string) : option participant :=
  match State stub !! key with
  | Some b => match Unmarshal b with inr p => Some p | inl _ => None end
  | None => None
  end.

Definition balanceOf (stub : ChaincodeStub) (key : string) : option Z :=
  Balance <$> stored stub key.

(** The stub after a [PutState] of the record [p] under [key] that did not
    fail. *)
Definition put (stub : ChaincodeStub) (key : string) (p : participant)
  : ChaincodeStub :=
  {| State := <[key := Marshal p]> (State stub);
     Writes := (key, Marshal p) :: Writes stub;
     GetFault := GetFault stub;
     PutFault := PutFault stub |}.

(** The tax on an amount, as line 234 computes it. *)
Definition taxPoints (pointsAsInt : Z) : Z :=
  GoInt.div (GoInt.mul pointsAsInt 2) 100.

(** The stub after the writes of the tax authority, of the sender and of
    the receiver. *)
Definition settled (stub : ChaincodeStub) (sender receiver : string)
  (s r t : participant) (amount : Z) : ChaincodeStub :=
  put (put (put stub taxAuth
              (withBalance t (GoInt.add (Balance t) (taxPoints amount))))
         sender (withBalance s (GoInt.sub (Balance s) amount)))
    receiver
    (withBalance r (GoInt.add (Balance r) (GoInt.sub amount (taxPoints amount)))).

(** A store without faults. *)
Definition reliable (stub : ChaincodeStub) : Prop :=
  (forall key, GetFault stub key = None) /\ (forall key, PutFault stub key = None).

Definition newStub : ChaincodeStub :=
  {| State := ∅; Writes := []; GetFault := fun _ => None; PutFault := fun _ => None |}.

Definition withFaults (getFault putFault : string -> option string)
  (stub : ChaincodeStub) : ChaincodeStub :=
  {| State := State stub; Writes := Writes stub;
     GetFault := getFault; PutFault := putFault |}.

(** The stub after a sequence of invocations, first call first. *)
Fixpoint run (calls : list (string * list string)) (stub : ChaincodeStub)
  : ChaincodeStub :=
  match calls with
  | [] => stub
  | (function, args) :: calls' => run calls' (snd (Invoke stub function args))
  end.

(** The record of the invocations made, latest first: the function, its
    arguments and the response. *)
Definition Journal := list (string * list string * Response).

Fixpoint journal (calls : list (string * list string)) (stub : ChaincodeStub)
  (before : Journal) : Journal :=
  match calls with
  | [] => before
  | (function, args) :: calls' =>
      journal calls' (snd (Invoke stub function args))
        ((function, args, fst (Invoke stub function args)) :: before)
  end.

(** The states the ledger can be in: it starts empty, each invocation takes
    it to the next state, and the faults of the store may change between
    invocations.  The index is the journal of the invocations. *)
Inductive reachable : Journal -> ChaincodeStub -> Prop :=
| reachable_new getFault putFault :
    reachable [] (withFaults getFault putFault newStub)
| reachable_invoke history stub function args :
    reachable history stub ->
    reachable ((function, args, fst (Invoke stub function args)) :: history)
      (snd (Invoke stub function args))
| reachable_faults history stub getFault putFault :
    reachable history stub ->
    reachable history (withFaults getFault putFault stub).

(** The balance a stored value holds; a value that does not decode holds
    none. *)
Definition value (b : bytes) : Z :=
  match Unmarshal b with inr p => Balance p | inl _ => 0 end.

(** The total of all stored balances. *)
Definition totalBalance (stub : ChaincodeStub) : Z :=
  map_fold (fun _ b acc => value b + acc) 0 (State stub).

(** [rebalanced stub stub']: [stub'] is [stub] after some writes, each of a
    record of [stub] under its own key with another balance. *)
Inductive rebalanced (stub : ChaincodeStub) : ChaincodeStub -> Prop :=
| rebalanced_none : rebalanced stub stub
| rebalanced_put stub' key p z :
    rebalanced stub stub' -> stored stub key = Some p ->
    rebalanced stub (put stub' key (withBalance p (GoInt.wrap z))).

(** [lowercased history stub]: every stored value decodes to a participant
    whose category is the lower-case form of the category given to the
    successful [initParty] call of the journal that created its key. *)
Definition lowercased (history : Journal) (stub : ChaincodeStub) : Prop :=
  forall key b, State stub !! key = Some b ->
    exists p category balanceText,
      In ("initParty", [key; category; balanceText], Success None) history /\
      Unmarshal b = inr p /\ Category p = strings.ToLower category.

(** *** Four statements of the specification, word for word *)

(** The taxed transfer: a successful transfer of a parsed amount between
    two distinct participants, no category restricted and the receiver not
    exempt, moves [amount - tax] to the receiver and [tax] to the tax
    authority, where [tax] is [amount * 2 / 100] rounded down. *)
Definition taxedTransferAsStated (stub : ChaincodeStub)
  (sender receiver amountText : string) : Prop :=
  forall amount s r t,
    fst (transferPoints stub [sender; receiver; amountText]) = Success None ->
    strconv.Atoi amountText = (amount, None) ->
    sender <> receiver ->
    stored stub sender = Some s -> stored stub receiver = Some r ->
    stored stub taxAuth = Some t ->
    Category s <> "TaxAuth" -> Category r <> "TaxAuth" ->
    Category r <> "TaxExempt" ->
    let stub' := snd (transferPoints stub [sender; receiver; amountText]) in
    let tax := amount * 2 / 100 in
    balanceOf stub' receiver = Some (Balance r + (amount - tax)) /\
    balanceOf stub' taxAuth = Some (Balance t + tax) /\
    balanceOf stub' sender = Some (Balance s - amount) /\
    (forall bs br bt,
       balanceOf stub' sender = Some bs -> balanceOf stub' receiver = Some br ->
       balanceOf stub' taxAuth = Some bt ->
       bs + br + bt = Balance s + Balance r + Balance t).


(** The transfer to oneself: it succeeds, the participant ends with
    [b + amount - tax], the tax authority gains the tax and the total of
    all balances grows by the amount. *)
Definition selfTransferAsStated (stub : ChaincodeStub) (n amountText : string)
  : Prop :=
  forall amount p t,
    reliable stub ->
    strconv.Atoi amountText = (amount, None) ->
    stored stub n = Some p -> stored stub taxAuth = Some t ->
    amount <= Balance p ->
    Category p <> "TaxAuth" -> Category p <> "TaxExempt" ->
    let stub' := snd (transferPoints stub [n; n; amountText]) in
    let tax := Z.quot (amount * 2) 100 in
    fst (transferPoints stub [n; n; amountText]) = Success None /\
    balanceOf stub' n = Some (Balance p + amount - tax) /\
    balanceOf stub' taxAuth = Some (Balance t + tax) /\
    totalBalance stub' = totalBalance stub + amount.

(** The negative amount: it is accepted; the sender's stored balance grows
    by [- a] and the receiver's changes by [a - tax], with the tax
    truncated toward zero. *)
Definition negativeAmountAsStated (stub : ChaincodeStub)
  (sender receiver amountText : string) : Prop :=
  forall a s r t,
    reliable stub ->
    strconv.Atoi amountText = (a, None) -> a < 0 ->
    stored stub sender = Some s -> stored stub receiver = Some r ->
    stored stub taxAuth = Some t ->
    Category s <> "TaxAuth" -> Category r <> "TaxAuth" ->
    Category r <> "TaxExempt" ->
    a <= Balance s ->
    let result := transferPoints stub [sender; receiver; amountText] in
    let tax := Z.quot (a * 2) 100 in
    fst result = Success None /\
    balanceOf (snd result) sender = Some (Balance s + - a) /\
    balanceOf (snd result) receiver = Some (Balance r + (a - tax)).

(** The round trip: after a successful creation from a non-empty name, a
    non-empty category and a balance text that parses to [b], under a free
    key, the read succeeds and its payload decodes to a record of this
    name, of the lower-case form of the category and of balance [b]. *)
Definition roundTripAsStated (stub : ChaincodeStub)
  (name category balanceText : string) : Prop :=
  forall b,
    name <> "" -> category <> "" ->
    strconv.Atoi balanceText = (b, None) ->
    State stub !! name = None ->
    fst (initParty stub [name; category; balanceText]) = Success None ->
    let stub' := snd (initParty stub [name; category; balanceText]) in
    exists payload p,
      readParty stub' [name] = (Success (Some payload), stub') /\
      Unmarshal payload = inr p /\
      Name p = name /\ Category p = strings.ToLower category /\ Balance p = b.

(** A name of one byte, FF, which is not UTF-8. *)
Definition brokenName : string := String (utf8.byteAt 255) EmptyString.

(** *** Ledgers of the scenarios *)

(** Alice with 500 points, Bob with none, and the tax authority. *)
Definition threeParties : ChaincodeStub :=
  run [("initParty", ["Alice"; "Normal"; "500"]);
       ("initParty", ["Bob"; "Normal"; "0"]);
       ("initParty", ["TaxAuth"; "TaxAuth"; "0"])] newStub.

(** The same with Carol, created as tax exempt. *)
Definition withCarol : ChaincodeStub :=
  run [("initParty", ["Carol"; "TaxExempt"; "0"])] threeParties.

(** A ledger of the tax authority alone, with 1000 points. *)
Definition authorityOnly : ChaincodeStub :=
  run [("initParty", ["TaxAuth"; "TaxAuth"; "1000"])] newStub.

(** Alice and Bob on a ledger without a tax authority. *)
Definition noAuthority : ChaincodeStub :=
  run [("initParty", ["Alice"; "Normal"; "500"]);
       ("initParty", ["Bob"; "Normal"; "0"])] newStub.

(** A participant with the largest balance an [int] holds. *)
Definition richParty : ChaincodeStub :=
  run [("initParty", ["Rich"; "Normal"; "9223372036854775807"]);
       ("initParty", ["TaxAuth"; "TaxAuth"; "0"])] newStub.

End Ledger.

(** ** The rest of the chaincode, and more ledgers *)

Section Rest.

Context `{codec : Codec} `{tables : strings.CaseTables}.

(** [Init]: nothing is set up; the ledger starts empty. *)
Definition Init (stub : ChaincodeStub) : Response * ChaincodeStub :=
  (Success None, stub).

(** [keyed stub]: every stored value decodes to a participant record that
    carries its key as name, with the bytes of the key that are not part
    of an encoded rune replaced by U+FFFD (the key itself when it is valid
    UTF-8), the document type of line 107 and a balance of type [int]. *)
Definition keyed (stub : ChaincodeStub) : Prop :=
  forall key b, State stub !! key = Some b ->
    exists p, Unmarshal b = inr p /\ Name p = utf8.coerce key /\
              ObjectType p = "participant" /\ GoInt.fits (Balance p).

(** A ledger written by hand, whose categories are the markers in their
    mixed case: the tax authority, Dana with 500 points and Erin, exempt. *)
Definition markedLedger : ChaincodeStub :=
  put (put (put newStub "TaxAuth" (mkParticipant "participant" "TaxAuth" "TaxAuth" 0))
         "Dana" (mkParticipant "participant" "Dana" "normal" 500))
    "Erin" (mkParticipant "participant" "Erin" "TaxExempt" 0).

(** The three parties on a store that refuses to write Alice's record. *)
Definition refusingAlice : ChaincodeStub :=
  withFaults (fun _ => None)
    (fun key => if String.eqb key "Alice" then Some "write refused" else None)
    threeParties.

(** Rich with the largest [int], Bob with nothing, and the tax authority. *)
Definition richAndBob : ChaincodeStub :=
  run [("initParty", ["Rich"; "Normal"; "9223372036854775807"]);
       ("initParty", ["Bob"; "Normal"; "0"]);
       ("initParty", ["TaxAuth"; "TaxAuth"; "0"])] newStub.

(** Rich and Bob with the largest [int], and the tax authority with the
    smallest. *)
Definition extremes : ChaincodeStub :=
  run [("initParty", ["Rich"; "Normal"; "9223372036854775807"]);
       ("initParty", ["Bob"; "Normal"; "9223372036854775807"]);
       ("initParty", ["TaxAuth"; "TaxAuth"; "-9223372036854775808"])] newStub.

End Rest.

(** * Properties *)

(** ** Go's [int] *)

Lemma wrap_fits z : GoInt.fits (GoInt.wrap z).
Proof.
  unfold GoInt.fits, GoInt.wrap, GoInt.MinInt, GoInt.MaxInt, GoInt.intSize.
  change (2 ^ (64 - 1)) with 9223372036854775808.
  change (2 ^ 64) with 18446744073709551616.
  pose proof (Z.mod_pos_bound (z + 9223372036854775808) 18446744073709551616).
  lia.
Qed.

Lemma wrap_id z : GoInt.fits z -> GoInt.wrap z = z.
Proof.
  unfold GoInt.fits, GoInt.wrap, GoInt.MinInt, GoInt.MaxInt, GoInt.intSize.
  change (2 ^ (64 - 1)) with 9223372036854775808.
  change (2 ^ 64) with 18446744073709551616.
  intros Hz. rewrite Z.mod_small by lia. lia.
Qed.

(** ** strconv *)

Lemma isDigit_range c :
  strconv.isDigit c = true -> 0 <= strconv.digitVal c <= 9.
Proof. unfold strconv.isDigit, strconv.digitVal. lia. Qed.

Lemma digitChar_digit d :
  0 <= d <= 9 ->
  strconv.isDigit (strconv.digitChar d) = true /\
  strconv.digitVal (strconv.digitChar d) = d.
Proof.
  intros Hd.
  assert (Hcases : d = 0 \/ d = 1 \/ d = 2 \/ d = 3 \/ d = 4 \/
                   d = 5 \/ d = 6 \/ d = 7 \/ d = 8 \/ d = 9) by lia.
  repeat (destruct Hcases as [-> | Hcases]; [split; reflexivity |]).
  subst d. split; reflexivity.
Qed.

Lemma parseDigits_nonneg s : forall n v e,
  0 <= n -> strconv.parseDigits s n = (v, e) -> 0 <= v.
Proof.
  induction s as [| c s IH]; intros n v e Hn; simpl.
  - intros [= <- _]. exact Hn.
  - destruct (strconv.isDigit c) eqn:Hc; simpl; [| intros [= <- _]; lia].
    destruct (_ <=? n); [intros [= <- _]; unfold strconv.maxUint64; lia |].
    destruct (_ <? _); [intros [= <- _]; unfold strconv.maxUint64; lia |].
    apply IH. apply isDigit_range in Hc. lia.
Qed.

Lemma ParseUint_nonneg s v e : strconv.ParseUint s = (v, e) -> 0 <= v.
Proof.
  destruct s as [| c s]; cbn [strconv.ParseUint].
  - intros [= <- _]. lia.
  - apply parseDigits_nonneg. lia.
Qed.

(** A result without error is a value of type [int]. *)
Lemma Atoi_fits s v : strconv.Atoi s = (v, None) -> GoInt.fits v.
Proof.
  unfold strconv.Atoi, strconv.ParseInt, GoInt.fits, GoInt.MinInt, GoInt.MaxInt,
    GoInt.intSize.
  change (2 ^ (64 - 1)) with 9223372036854775808.
  destruct s as [| c s]; [discriminate |].
  destruct (strconv.ParseUint _) as [un e] eqn:Hun.
  apply ParseUint_nonneg in Hun.
  destruct e as [[|] |]; [discriminate | |];
    destruct (Ascii.eqb c "-"); simpl;
    repeat case_match; intros [= <-]; lia.
Qed.

(** A syntax error comes with the value 0, a range error with the bound of
    the sign's side. *)
Lemma Atoi_syntax s v : strconv.Atoi s = (v, Some strconv.ErrSyntax) -> v = 0.
Proof.
  unfold strconv.Atoi, strconv.ParseInt.
  destruct s as [| c s]; [intros [= <-]; reflexivity |].
  destruct (strconv.ParseUint _) as [un [[|] |]];
    repeat case_match; intros [= <-]; try reflexivity; discriminate.
Qed.

Lemma Atoi_range s v :
  strconv.Atoi s = (v, Some strconv.ErrRange) -> v = GoInt.MaxInt \/ v = GoInt.MinInt.
Proof.
  unfold strconv.Atoi, strconv.ParseInt.
  destruct s as [| c s]; [discriminate |].
  destruct (strconv.ParseUint _) as [un [[|] |]];
    repeat case_match; intros [= <-]; auto; discriminate.
Qed.

Lemma formatDigits_head fuel : forall n acc,
  0 <= n -> fuel <> O \/ headDigit acc = true ->
  headDigit (strconv.formatDigits fuel n acc) = true.
Proof.
  induction fuel as [| fuel IH]; intros n acc Hn Hor; simpl.
  - destruct Hor as [? | ?]; [congruence | assumption].
  - assert (Hd : strconv.isDigit (strconv.digitChar (n mod 10)) = true).
    { apply digitChar_digit. pose proof (Z.mod_pos_bound n 10). lia. }
    destruct (n <? 10); [exact Hd |].
    apply IH; [apply Z.div_pos; lia | right; exact Hd].
Qed.

Lemma formatDigits_parse fuel : forall n acc,
  0 <= n <= strconv.maxUint64 -> n < 10 ^ Z.of_nat fuel ->
  strconv.parseDigits (strconv.formatDigits fuel n acc) 0 = strconv.parseDigits acc n.
Proof.
  unfold strconv.maxUint64. change (2 ^ 64 - 1) with 18446744073709551615.
  induction fuel as [| fuel IH]; intros n acc Hn Hlt.
  - simpl in *. replace n with 0 by lia. reflexivity.
  - cbn [strconv.formatDigits].
    assert (Hm : 0 <= n mod 10 <= 9) by (pose proof (Z.mod_pos_bound n 10); lia).
    destruct (digitChar_digit _ Hm) as [Hd Hv].
    assert (Hstep : forall m, 0 <= m -> m * 10 + n mod 10 = n ->
              strconv.parseDigits (String (strconv.digitChar (n mod 10)) acc) m
              = strconv.parseDigits acc n).
    { intros m Hm0 Hmn. cbn [strconv.parseDigits]. rewrite Hd, Hv. simpl negb. cbv iota.
      unfold strconv.maxUint64. change (2 ^ 64 - 1) with 18446744073709551615.
      change (18446744073709551615 / 10 + 1) with 1844674407370955162.
      destruct (Z.leb_spec 1844674407370955162 m); [lia |].
      rewrite Hmn. destruct (Z.ltb_spec 18446744073709551615 n); [lia | reflexivity]. }
    destruct (Z.ltb_spec n 10).
    + apply Hstep; [lia |]. rewrite Z.mod_small; lia.
    + rewrite IH.
      * apply Hstep; [apply Z.div_pos; lia |].
        pose proof (Z.div_mod n 10). lia.
      * split; [apply Z.div_pos; lia |].
        apply Z.div_le_upper_bound; lia.
      * apply Z.div_lt_upper_bound; [lia |].
        rewrite Nat2Z.inj_succ, Z.pow_succ_r in Hlt by lia. lia.
Qed.

Lemma headDigit_sign s :
  headDigit s = true ->
  exists c s', s = String c s' /\ Ascii.eqb c "-" = false /\ Ascii.eqb c "+" = false.
Proof.
  destruct s as [| c s']; [discriminate |]. simpl. intros Hc.
  exists c, s'. split; [reflexivity |].
  split; destruct (Ascii.eqb_spec c "-"), (Ascii.eqb_spec c "+"); subst;
    try reflexivity; discriminate.
Qed.

Lemma ParseUint_formatDigits n :
  0 <= n <= strconv.maxUint64 ->
  strconv.ParseUint (strconv.formatDigits 20 n "") = (n, None).
Proof.
  intros Hn.
  assert (Hh : headDigit (strconv.formatDigits 20 n "") = true)
    by (apply formatDigits_head; [lia | left; discriminate]).
  unfold strconv.ParseUint.
  destruct (strconv.formatDigits 20 n "") as [| c s'] eqn:Hs; [discriminate |].
  rewrite <- Hs, formatDigits_parse; [reflexivity | exact Hn |].
  unfold strconv.maxUint64 in Hn. change (10 ^ Z.of_nat 20) with 100000000000000000000.
  lia.
Qed.

(** [Atoi] reads back what [Itoa] writes. *)
Lemma Atoi_Itoa z : GoInt.fits z -> strconv.Atoi (strconv.Itoa z) = (z, None).
Proof.
  unfold GoInt.fits, GoInt.MinInt, GoInt.MaxInt, GoInt.intSize.
  change (2 ^ (64 - 1)) with 9223372036854775808. intros Hz.
  unfold strconv.Atoi, strconv.Itoa.
  destruct (Z.ltb_spec z 0) as [Hneg | Hpos].
  - unfold strconv.ParseInt. change (Ascii.eqb "-" "-") with true.
    change (Ascii.eqb "-" "+") with false. cbn [orb].
    rewrite ParseUint_formatDigits by (unfold strconv.maxUint64; lia).
    unfold GoInt.intSize. change (2 ^ (64 - 1)) with 9223372036854775808.
    cbn [negb andb].
    destruct (Z.ltb_spec 9223372036854775808 (- z)); [lia |].
    f_equal. lia.
  - assert (Hh : headDigit (strconv.formatDigits 20 z "") = true)
      by (apply formatDigits_head; [lia | left; discriminate]).
    pose proof (ParseUint_formatDigits z) as Hp.
    destruct (headDigit_sign _ Hh) as (c & s' & Hs & Hm & Hpl).
    rewrite Hs in Hp |- *.
    unfold strconv.ParseInt. rewrite Hm, Hpl. cbn [orb].
    rewrite Hp by (unfold strconv.maxUint64; lia).
    unfold GoInt.intSize. change (2 ^ (64 - 1)) with 9223372036854775808.
    cbn [negb andb].
    destruct (Z.leb_spec 9223372036854775808 z); [lia | reflexivity].
Qed.

(** ** UTF-8 *)

Lemma byteOf_range c : 0 <= utf8.byteOf c < 256.
Proof.
  unfold utf8.byteOf. pose proof (N_ascii_bounded c). lia.
Qed.

Lemma byteOf_byteAt z : 0 <= z < 256 -> utf8.byteOf (utf8.byteAt z) = z.
Proof.
  intros Hz. unfold utf8.byteOf, utf8.byteAt.
  rewrite N_ascii_embedding by lia. lia.
Qed.

Lemma coerceFrom_valid s : forall copy,
  utf8.validFrom copy s = true -> utf8.coerceFrom copy s = s.
Proof.
  induction s as [| c s IH]; intros copy; [reflexivity |].
  cbn [utf8.validFrom utf8.coerceFrom].
  destruct copy as [| n].
  - destruct (utf8.runeSize (String c s)) as [| n]; [discriminate |].
    intros Hv. by rewrite IH.
  - intros Hv. by rewrite IH.
Qed.

(** The width of a rune is read off its own bytes. *)
Lemma runeSize_agree c s t n :
  utf8.runeSize (String c s) = S n -> agree n s t ->
  utf8.runeSize (String c t) = S n.
Proof.
  unfold utf8.runeSize.
  destruct (utf8.byteOf c <? 128); [done |].
  destruct (utf8.between 194 223 c).
  { destruct s as [| c1 s]; [discriminate |].
    destruct (utf8.continuation c1) eqn:H1; [| discriminate].
    intros [= <-]. destruct t as [| d1 t]; [done |]. intros [<- _].
    by rewrite H1. }
  destruct (utf8.between 224 239 c).
  { destruct s as [| c1 [| c2 s]]; try discriminate.
    destruct (_ && _) eqn:H1; [| discriminate].
    intros [= <-]. destruct t as [| d1 [| d2 t]]; try (cbn; tauto).
    intros (<- & <- & _). by rewrite H1. }
  destruct (utf8.between 240 244 c); [| discriminate].
  destruct s as [| c1 [| c2 [| c3 s]]]; try discriminate.
  destruct (_ && _) eqn:H1; [| discriminate].
  intros [= <-]. destruct t as [| d1 [| d2 [| d3 t]]]; try (cbn; tauto).
  intros (<- & <- & <- & _). by rewrite H1.
Qed.

Lemma runeSize_length c s n :
  utf8.runeSize (String c s) = S n -> (n <= String.length s)%nat.
Proof.
  unfold utf8.runeSize.
  destruct (utf8.byteOf c <? 128); [intros [= <-]; lia |].
  destruct (utf8.between 194 223 c).
  { destruct s as [| c1 s]; [discriminate |].
    destruct (utf8.continuation c1); [| discriminate].
    intros [= <-]. cbn. lia. }
  destruct (utf8.between 224 239 c).
  { destruct s as [| c1 [| c2 s]]; try discriminate.
    destruct (_ && _); [| discriminate].
    intros [= <-]. cbn. lia. }
  destruct (utf8.between 240 244 c); [| discriminate].
  destruct s as [| c1 [| c2 [| c3 s]]]; try discriminate.
  destruct (_ && _); [| discriminate].
  intros [= <-]. cbn. lia.
Qed.

Lemma agree_coerceFrom n : forall s,
  (n <= String.length s)%nat -> agree n s (utf8.coerceFrom n s).
Proof.
  induction n as [| n IH]; intros s Hn; [done |].
  destruct s as [| c s]; cbn in Hn; [lia |].
  cbn [utf8.coerceFrom agree]. split; [done | apply IH; lia].
Qed.

Lemma validFrom_replacement s :
  utf8.validFrom 0 (utf8.replacement +:+ s) = utf8.validFrom 0 s.
Proof. reflexivity. Qed.

Lemma validFrom_coerceFrom s : forall copy,
  (copy <= String.length s)%nat ->
  utf8.validFrom copy (utf8.coerceFrom copy s) = true.
Proof.
  induction s as [| c s IH]; intros copy Hc; [reflexivity |].
  cbn [utf8.coerceFrom]. cbn in Hc. destruct copy as [| n]; [| apply IH; lia].
  destruct (utf8.runeSize (String c s)) as [| n] eqn:Hsize.
  - rewrite validFrom_replacement. apply IH. lia.
  - pose proof (runeSize_length _ _ _ Hsize) as Hn.
    cbn [utf8.validFrom].
    rewrite (runeSize_agree _ _ _ _ Hsize (agree_coerceFrom _ _ Hn)).
    by apply IH.
Qed.

Lemma ValidString_coerce s : utf8.ValidString (utf8.coerce s) = true.
Proof. apply validFrom_coerceFrom. lia. Qed.

Lemma coerce_valid s : utf8.ValidString s = true -> utf8.coerce s = s.
Proof. apply coerceFrom_valid. Qed.

(** The text is kept exactly when it is valid UTF-8. *)
Lemma coerce_fixed s : utf8.coerce s = s <-> utf8.ValidString s = true.
Proof.
  split; [| apply coerce_valid].
  intros Hs. rewrite <- Hs. apply ValidString_coerce.
Qed.

Lemma byteAt_byteOf c : utf8.byteAt (utf8.byteOf c) = c.
Proof.
  unfold utf8.byteAt, utf8.byteOf. rewrite N2Z.id. apply ascii_N_embedding.
Qed.

Lemma byteOf_eq c z : utf8.byteOf c = z -> c = utf8.byteAt z.
Proof. intros <-. by rewrite byteAt_byteOf. Qed.

Lemma runeSize_ascii c s :
  (utf8.byteOf c <? 128) = true -> utf8.runeSize (String c s) = 1%nat.
Proof. intros Hc. unfold utf8.runeSize. by rewrite Hc. Qed.

Lemma append_String c s t : String c s +:+ t = String c (s +:+ t).
Proof. reflexivity. Qed.

Lemma append_Empty t : EmptyString +:+ t = t.
Proof. reflexivity. Qed.

(** *** What [EncodeRune] writes is valid *)

Ltac split_tests :=
  repeat match goal with
         | |- context [?a =? ?b] => destruct (Z.eqb_spec a b); try lia
         | |- context [?a <? ?b] => destruct (Z.ltb_spec a b); try lia
         | |- context [?a <=? ?b] => destruct (Z.leb_spec a b); try lia
         end.

Lemma validFrom_1 z t :
  0 <= z < 128 ->
  utf8.validFrom 0 (String (utf8.byteAt z) t) = utf8.validFrom 0 t.
Proof.
  intros Hz. cbn [utf8.validFrom]. unfold utf8.runeSize.
  rewrite byteOf_byteAt by lia. by split_tests.
Qed.

Lemma validFrom_2 z0 z1 t :
  194 <= z0 <= 223 -> 128 <= z1 <= 191 ->
  utf8.validFrom 0 (String (utf8.byteAt z0) (String (utf8.byteAt z1) t))
  = utf8.validFrom 0 t.
Proof.
  intros H0 H1. cbn [utf8.validFrom].
  unfold utf8.runeSize, utf8.continuation, utf8.between.
  rewrite !byteOf_byteAt by lia. by split_tests.
Qed.

Lemma validFrom_3 z0 z1 z2 t :
  224 <= z0 <= 239 -> 128 <= z1 <= 191 -> 128 <= z2 <= 191 ->
  (z0 = 224 -> 160 <= z1) -> (z0 = 237 -> z1 <= 159) ->
  utf8.validFrom 0
    (String (utf8.byteAt z0) (String (utf8.byteAt z1) (String (utf8.byteAt z2) t)))
  = utf8.validFrom 0 t.
Proof.
  intros H0 H1 H2 Hlo Hhi. cbn [utf8.validFrom].
  unfold utf8.runeSize, utf8.continuation, utf8.between.
  rewrite !byteOf_byteAt by lia. by split_tests.
Qed.

Lemma validFrom_4 z0 z1 z2 z3 t :
  240 <= z0 <= 244 -> 128 <= z1 <= 191 -> 128 <= z2 <= 191 -> 128 <= z3 <= 191 ->
  (z0 = 240 -> 144 <= z1) -> (z0 = 244 -> z1 <= 143) ->
  utf8.validFrom 0
    (String (utf8.byteAt z0)
       (String (utf8.byteAt z1) (String (utf8.byteAt z2) (String (utf8.byteAt z3) t))))
  = utf8.validFrom 0 t.
Proof.
  intros H0 H1 H2 H3 Hlo Hhi. cbn [utf8.validFrom].
  unfold utf8.runeSize, utf8.continuation, utf8.between.
  rewrite !byteOf_byteAt by lia. by split_tests.
Qed.

(** What [EncodeRune] writes is one rune. *)
Lemma validFrom_EncodeRune r t :
  utf8.validFrom 0 (utf8.EncodeRune r +:+ t) = utf8.validFrom 0 t.
Proof.
  unfold utf8.EncodeRune, utf8.MaxRune.
  destruct (Z.leb_spec 0 r); destruct (Z.ltb_spec r 128); cbn [andb].
  1: { rewrite append_String, append_Empty. apply validFrom_1. lia. }
  all: destruct (Z.leb_spec 128 r); destruct (Z.ltb_spec r 2048); cbn [andb].
  all: try (rewrite !append_String, append_Empty; apply validFrom_2;
            Z.div_mod_to_equations; lia).
  all: destruct (Z.ltb_spec r 0); cbn [orb]; try reflexivity.
  all: destruct (Z.ltb_spec 1114111 r); cbn [orb]; try reflexivity.
  all: destruct (Z.leb_spec 55296 r); destruct (Z.leb_spec r 57343);
    cbn [andb]; try reflexivity; try lia.
  all: destruct (Z.ltb_spec r 65536); rewrite !append_String, append_Empty.
  all: first [ apply validFrom_3; Z.div_mod_to_equations; lia
             | apply validFrom_4; Z.div_mod_to_equations; lia ].
Qed.

(** ** strings.ToLower *)

Lemma lowerByte_not_upper c : strings.isUpper (strings.lowerByte c) = false.
Proof.
  unfold strings.lowerByte.
  destruct (strings.isUpper c) eqn:Hc; [| exact Hc].
  unfold strings.isUpper in *.
  apply andb_true_iff in Hc as [Hlo Hhi].
  apply Z.leb_le in Hlo, Hhi.
  rewrite N_ascii_embedding by lia.
  apply andb_false_iff. right. apply Z.leb_gt. lia.
Qed.

Lemma mapBytes_lower_no_upper s :
  strings.anyByte strings.isUpper (strings.mapBytes strings.lowerByte s) = false.
Proof.
  induction s as [| c s IH]; simpl; [reflexivity |].
  rewrite lowerByte_not_upper, IH. reflexivity.
Qed.

Lemma coerceFrom_no_upper s : forall n,
  strings.anyByte strings.isUpper s = false ->
  strings.anyByte strings.isUpper (utf8.coerceFrom n s) = false.
Proof.
  induction s as [| c s IH]; intros n; [done |].
  cbn [strings.anyByte utf8.coerceFrom].
  intros [Hc Hs]%orb_false_elim.
  destruct n as [| n]; [destruct (utf8.runeSize (String c s)) |].
  - change (strings.anyByte strings.isUpper (utf8.replacement +:+ utf8.coerceFrom 0 s))
      with (strings.anyByte strings.isUpper (utf8.coerceFrom 0 s)).
    by apply IH.
  - cbn [strings.anyByte]. rewrite Hc. by apply IH.
  - cbn [strings.anyByte]. rewrite Hc. by apply IH.
Qed.

Lemma lower_coerce_no_upper s :
  strings.anyByte strings.isUpper
    (utf8.coerce (strings.mapBytes strings.lowerByte s)) = false.
Proof. apply coerceFrom_no_upper, mapBytes_lower_no_upper. Qed.

Lemma lower_coerce_valid s :
  utf8.ValidString (utf8.coerce (strings.mapBytes strings.lowerByte s)) = true.
Proof. apply ValidString_coerce. Qed.

(** The tables used to evaluate the chaincode on concrete text: they know
    the ASCII letters only; the runes above 127 are kept as they are and a
    byte that is not part of an encoded rune becomes U+FFFD. *)
#[export] Instance asciiTables : strings.CaseTables := {|
  strings.unicodeToLower s := utf8.coerce (strings.mapBytes strings.lowerByte s);
  strings.unicodeToLower_no_upper := lower_coerce_no_upper;
  strings.unicodeToLower_valid := lower_coerce_valid
|}.

Lemma lowerByte_ascii c :
  strings.isASCIIByte c = true -> strings.isASCIIByte (strings.lowerByte c) = true.
Proof.
  intros Hc. unfold strings.lowerByte.
  destruct (strings.isUpper c) eqn:Hu; [| exact Hc].
  unfold strings.isUpper in Hu. unfold strings.isASCIIByte.
  apply andb_true_iff in Hu as [Hlo Hhi]. apply Z.leb_le in Hlo, Hhi.
  rewrite N_ascii_embedding by lia. apply Z.ltb_lt. lia.
Qed.

(** ASCII text is valid UTF-8. *)
Lemma isASCII_valid s : strings.isASCII s = true -> utf8.ValidString s = true.
Proof.
  unfold utf8.ValidString.
  induction s as [| c s IH]; [done |].
  cbn [strings.isASCII utf8.validFrom]. intros [Hc Hs]%andb_true_iff.
  rewrite runeSize_ascii by exact Hc. by apply IH.
Qed.

Lemma mapBytes_lower_ascii s :
  strings.isASCII s = true ->
  strings.isASCII (strings.mapBytes strings.lowerByte s) = true.
Proof.
  induction s as [| c s IH]; [done |].
  cbn [strings.isASCII strings.mapBytes]. intros [Hc Hs]%andb_true_iff.
  by rewrite lowerByte_ascii, IH.
Qed.

Section ToLower.

Context `{tables : strings.CaseTables}.

(** No byte of a lower-cased string is an upper-case ASCII letter. *)
Lemma ToLower_no_upper s : strings.anyByte strings.isUpper (strings.ToLower s) = false.
Proof.
  unfold strings.ToLower. destruct (strings.isASCII s).
  - apply mapBytes_lower_no_upper.
  - apply strings.unicodeToLower_no_upper.
Qed.

(** A lower-cased string is valid UTF-8, whatever the bytes given. *)
Lemma ToLower_valid s : utf8.ValidString (strings.ToLower s) = true.
Proof.
  unfold strings.ToLower. destruct (strings.isASCII s) eqn:Hs.
  - by apply isASCII_valid, mapBytes_lower_ascii.
  - apply strings.unicodeToLower_valid.
Qed.

Lemma coerce_ToLower s : utf8.coerce (strings.ToLower s) = strings.ToLower s.
Proof. apply coerce_valid, ToLower_valid. Qed.

(** So a lower-cased string is neither of the two mixed-case markers. *)
Lemma ToLower_not_marker s :
  String.eqb (strings.ToLower s) "TaxAuth" = false /\
  String.eqb (strings.ToLower s) "TaxExempt" = false.
Proof.
  pose proof (ToLower_no_upper s) as Hs.
  split; apply String.eqb_neq; intros Heq; rewrite Heq in Hs; discriminate.
Qed.

End ToLower.

(** ** The JSON codec *)

Lemma expect_append lit s : json.expect lit (lit +:+ s) = Some s.
Proof.
  induction lit as [| a lit IH]; simpl; [by destruct s |].
  by rewrite Ascii.eqb_refl.
Qed.

Lemma append_assoc (a b c : string) : (a +:+ b) +:+ c = a +:+ b +:+ c.
Proof.
  induction a as [| x a IH]; [reflexivity |].
  change (String x ((a +:+ b) +:+ c) = String x (a +:+ b +:+ c)). by rewrite IH.
Qed.

(** *** String literals *)

Lemma writeFrom_skipped s k : json.writeFrom false 0 s k = json.writeFrom true 0 s k.
Proof. by destruct s. Qed.

Lemma readFrom_skipped s : json.readFrom false 0 s = json.readFrom true 0 s.
Proof. by destruct s. Qed.

Lemma agree_writeFrom n : forall s k,
  (n <= String.length s)%nat -> agree n s (json.writeFrom true n s k).
Proof.
  induction n as [| n IH]; intros s k Hn; [done |].
  destruct s as [| c s]; cbn in Hn; [lia |].
  cbn [json.writeFrom agree]. split; [done | apply IH; lia].
Qed.

Lemma readFrom_backslash b s :
  Ascii.eqb b json.backslash = true ->
  json.readFrom true 0 (String b s)
  = match json.unescape (String b s) with
    | Some (t, m) => json.prefixed t (json.readFrom false m s)
    | None => None
    end.
Proof. intros ->%Ascii.eqb_eq. reflexivity. Qed.

(** An escape is read as the bytes it stands for. *)
Ltac read_escape :=
  rewrite readFrom_backslash by reflexivity;
  match goal with
  | |- context [json.unescape ?s] =>
      let u := eval vm_compute in (json.unescape s) in
      change (json.unescape s) with u
  end;
  cbn [json.readFrom]; rewrite readFrom_skipped.

Lemma readFrom_escape c rest :
  (utf8.byteOf c <? 128) = true -> json.htmlSafe c = false ->
  json.readFrom true 0 (json.escape c +:+ rest)
  = json.prefixed (String c EmptyString) (json.readFrom true 0 rest).
Proof.
  intros Hc Hs.
  destruct c as [[] [] [] [] [] [] [] []];
    first [discriminate Hc | discriminate Hs | idtac];
    clear Hc Hs;
    match goal with
    | |- context [json.escape ?c] =>
        let e := eval vm_compute in (json.escape c) in
        change (json.escape c) with e
    end;
    rewrite ?append_String, ?append_Empty; read_escape; reflexivity.
Qed.

Lemma readFrom_replacement rest :
  json.readFrom true 0 (String json.backslash "ufffd" +:+ rest)
  = json.prefixed utf8.replacement (json.readFrom true 0 rest).
Proof. rewrite ?append_String, ?append_Empty. read_escape. reflexivity. Qed.

Lemma readFrom_safe c s :
  json.htmlSafe c = true ->
  json.readFrom true 0 (String c s)
  = json.prefixed (String c EmptyString) (json.readFrom true 0 s).
Proof.
  intros Hs.
  destruct c as [[] [] [] [] [] [] [] []];
    first [discriminate Hs | reflexivity].
Qed.

Lemma readFrom_high c s :
  (utf8.byteOf c <? 128) = false ->
  json.readFrom true 0 (String c s)
  = match utf8.runeSize (String c s) with
    | O => json.prefixed utf8.replacement (json.readFrom true 0 s)
    | S m => json.prefixed (String c EmptyString) (json.readFrom true m s)
    end.
Proof.
  intros Hc.
  destruct c as [[] [] [] [] [] [] [] []];
    first [discriminate Hc | reflexivity].
Qed.

Lemma lineSeparator_Some s h :
  json.lineSeparator s = Some h ->
  exists c rest,
    s = String (utf8.byteAt 226) (String (utf8.byteAt 128) (String c rest)) /\
    (c = utf8.byteAt 168 /\ h = json.hexDigit 8 \/
     c = utf8.byteAt 169 /\ h = json.hexDigit 9).
Proof.
  unfold json.lineSeparator.
  destruct s as [| c0 [| c1 [| c2 rest]]]; try discriminate.
  destruct (utf8.byteOf c0 =? 226) eqn:H0; [| discriminate].
  destruct (utf8.byteOf c1 =? 128) eqn:H1; [| discriminate].
  apply Z.eqb_eq, byteOf_eq in H0, H1. subst c0 c1.
  destruct (utf8.byteOf c2 =? 168) eqn:H2.
  { apply Z.eqb_eq in H2. rewrite H2. apply byteOf_eq in H2. subst c2.
    intros [= <-]. exists (utf8.byteAt 168), rest. auto. }
  destruct (utf8.byteOf c2 =? 169) eqn:H3; [| discriminate].
  apply Z.eqb_eq in H3. rewrite H3. apply byteOf_eq in H3. subst c2.
  intros [= <-]. exists (utf8.byteAt 169), rest. auto.
Qed.

Lemma prefixed_Some t u rest :
  json.prefixed t (Some (u, rest)) = Some (t +:+ u, rest).
Proof. reflexivity. Qed.

(** Reading what was written gives the text with its invalid bytes
    replaced. *)
Lemma readFrom_writeFrom m : forall s n k,
  (String.length s <= m)%nat -> (n <= String.length s)%nat ->
  json.readFrom true n (json.writeFrom true n s k) = Some (utf8.coerceFrom n s, k).
Proof.
  induction m as [m IH] using lt_wf_ind. intros s n k Hm Hn.
  destruct s as [| c s]; cbn [String.length] in Hm, Hn.
  { assert (n = O) as -> by lia. reflexivity. }
  assert (Hnext : forall n' k', (n' <= String.length s)%nat ->
            json.readFrom true n' (json.writeFrom true n' s k')
            = Some (utf8.coerceFrom n' s, k')).
  { intros n' k' Hn'. apply (IH (String.length s)); lia. }
  destruct n as [| n].
  2: { cbn [json.writeFrom json.readFrom utf8.coerceFrom].
       rewrite Hnext by lia. reflexivity. }
  cbn [json.writeFrom utf8.coerceFrom].
  destruct (utf8.byteOf c <? 128) eqn:Hc.
  { rewrite (runeSize_ascii _ _ Hc).
    destruct (json.htmlSafe c) eqn:Hs.
    - rewrite (readFrom_safe _ _ Hs), Hnext by lia. reflexivity.
    - rewrite (readFrom_escape _ _ Hc Hs), Hnext by lia. reflexivity. }
  destruct (utf8.runeSize (String c s)) as [| w] eqn:Hsize.
  { rewrite readFrom_replacement, Hnext by lia. reflexivity. }
  destruct (json.lineSeparator (String c s)) as [h |] eqn:Hl.
  - apply lineSeparator_Some in Hl as (c2 & rest & Hs & Hh).
    injection Hs as -> ->.
    assert (w = 2%nat) as ->.
    { destruct Hh as [[-> _] | [-> _]]; vm_compute in Hsize; congruence. }
    cbn [json.writeFrom utf8.coerceFrom]. rewrite writeFrom_skipped.
    assert (Hrest : json.readFrom true 0 (json.writeFrom true 0 rest k)
                    = Some (utf8.coerceFrom 0 rest, k)).
    { apply (IH (String.length rest)); cbn [String.length] in Hm; lia. }
    destruct Hh as [[-> ->] | [-> ->]];
      rewrite ?append_String, ?append_Empty; read_escape;
      rewrite Hrest; reflexivity.
  - rewrite (readFrom_high _ _ Hc).
    pose proof (runeSize_length _ _ _ Hsize) as Hw.
    rewrite (runeSize_agree _ _ _ _ Hsize (agree_writeFrom _ _ k Hw)).
    rewrite Hnext by lia. reflexivity.
Qed.

Lemma readString_writeString s k :
  json.readString (json.writeString s k) = Some (utf8.coerce s, k).
Proof.
  unfold json.readString, json.writeString. cbn.
  apply (readFrom_writeFrom (String.length s)); lia.
Qed.

(** *** The decoder writes valid UTF-8 *)

Lemma unescape_valid s u m t :
  json.unescape s = Some (u, m) ->
  utf8.validFrom 0 (u +:+ t) = utf8.validFrom 0 t.
Proof.
  unfold json.unescape.
  destruct s as [| c0 [| e s]]; try discriminate.
  destruct ((utf8.byteOf e =? 34) || (utf8.byteOf e =? 92) || (utf8.byteOf e =? 47))
    eqn:He.
  { intros [= <- <-]. rewrite append_String, append_Empty.
    cbn [utf8.validFrom]. rewrite runeSize_ascii; [done |].
    apply Z.ltb_lt. apply orb_true_iff in He as [He | He];
      [apply orb_true_iff in He as [He | He] |]; apply Z.eqb_eq in He; lia. }
  clear He.
  repeat match goal with
         | |- context [if ?a =? ?b then Some _ else _] =>
             destruct (a =? b);
             [intros [= <- <-]; rewrite append_String, append_Empty;
              apply validFrom_1; lia |]
         end.
  destruct (utf8.byteOf e =? 117); [| discriminate].
  destruct (json.getu4 _) as [[rr rest] |]; [| discriminate].
  destruct ((55296 <=? rr) && (rr <? 57344)).
  - destruct (json.getu4 rest) as [[rr1 rest1] |].
    + destruct (json.decodeSurrogates rr rr1 =? utf8.RuneError); intros [= <- <-];
        [reflexivity | apply validFrom_EncodeRune].
    + intros [= <- <-]. reflexivity.
  - intros [= <- <-]. apply validFrom_EncodeRune.
Qed.

Lemma prefixed_inv t r u rest :
  json.prefixed t r = Some (u, rest) ->
  exists v, r = Some (v, rest) /\ u = t +:+ v.
Proof.
  destruct r as [[v rest'] |]; [| discriminate].
  intros [= <- <-]. eauto.
Qed.

Lemma agree_readFrom n : forall s t k,
  json.readFrom true n s = Some (t, k) -> agree n s t.
Proof.
  induction n as [| n IH]; intros s t k; [done |].
  destruct s as [| c s]; [discriminate |].
  cbn [json.readFrom]. intros (v & Hv & ->)%prefixed_inv.
  rewrite append_String, append_Empty. cbn [agree].
  split; [done | by eapply IH].
Qed.

Lemma readFrom_valid s : forall keep n t k,
  json.readFrom keep n s = Some (t, k) ->
  utf8.validFrom (if keep then n else 0) t = true.
Proof.
  induction s as [| c s IH]; intros keep n t k; [discriminate |].
  cbn [json.readFrom]. destruct n as [| n].
  2: { destruct keep.
       - intros (v & Hv & ->)%prefixed_inv.
         rewrite append_String, append_Empty. cbn [utf8.validFrom].
         exact (IH _ _ _ _ Hv).
       - intros Hv. exact (IH _ _ _ _ Hv). }
  assert (Hgoal : forall b : bool, (if b then O else O) = O) by (by intros []).
  rewrite Hgoal. clear Hgoal.
  destruct (Ascii.eqb c json.dq); [by intros [= <- <-] |].
  destruct (Ascii.eqb c json.backslash).
  { destruct (json.unescape _) as [[u m] |] eqn:Hu; [| discriminate].
    intros (v & Hv & ->)%prefixed_inv.
    rewrite (unescape_valid _ _ _ _ Hu). exact (IH _ _ _ _ Hv). }
  destruct (utf8.byteOf c <? 32); [discriminate |].
  destruct (utf8.byteOf c <? 128) eqn:Hc.
  { intros (v & Hv & ->)%prefixed_inv.
    rewrite append_String, append_Empty. cbn [utf8.validFrom].
    rewrite (runeSize_ascii _ _ Hc). exact (IH _ _ _ _ Hv). }
  destruct (utf8.runeSize (String c s)) as [| w] eqn:Hsize.
  { intros (v & Hv & ->)%prefixed_inv.
    rewrite validFrom_replacement. exact (IH _ _ _ _ Hv). }
  intros (v & Hv & ->)%prefixed_inv.
  rewrite append_String, append_Empty. cbn [utf8.validFrom].
  rewrite (runeSize_agree _ _ _ _ Hsize (agree_readFrom _ _ _ _ Hv)).
  exact (IH _ _ _ _ Hv).
Qed.

Lemma readString_valid s t k :
  json.readString s = Some (t, k) -> utf8.ValidString t = true.
Proof.
  unfold json.readString. destruct s as [| c s]; [discriminate |].
  destruct (Ascii.eqb c json.dq); [| discriminate].
  apply (readFrom_valid s true O).
Qed.

Lemma formatDigits_number fuel : forall n acc,
  0 <= n -> allNumber acc = true -> allNumber (strconv.formatDigits fuel n acc) = true.
Proof.
  unfold allNumber.
  induction fuel as [| fuel IH]; intros n acc Hn Hacc; simpl; [exact Hacc |].
  assert (Hm : 0 <= n mod 10 <= 9) by (pose proof (Z.mod_pos_bound n 10); lia).
  destruct (digitChar_digit _ Hm) as [Hd _].
  assert (Hacc' : negb (strings.anyByte (fun c => negb (json.isNumberByte c))
                    (String (strconv.digitChar (n mod 10)) acc)) = true).
  { simpl. unfold json.isNumberByte at 1. rewrite Hd. exact Hacc. }
  destruct (n <? 10); [exact Hacc' |].
  apply IH; [apply Z.div_pos; lia | exact Hacc'].
Qed.

Lemma Itoa_number z : allNumber (strconv.Itoa z) = true.
Proof.
  unfold strconv.Itoa. destruct (Z.ltb_spec z 0).
  - change (allNumber (strconv.formatDigits 20 (- z) "") = true).
    apply formatDigits_number; [lia | reflexivity].
  - apply formatDigits_number; [lia | reflexivity].
Qed.

Lemma spanNumber_append s k :
  allNumber s = true -> json.spanNumber (s +:+ String "}" k) = (s, String "}" k).
Proof.
  unfold allNumber. induction s as [| c s IH]; simpl; [reflexivity |].
  destruct (json.isNumberByte c); simpl; [| discriminate].
  intros Hs. rewrite (IH Hs). reflexivity.
Qed.

Lemma readInt_Itoa z k :
  GoInt.fits z -> json.readInt (strconv.Itoa z +:+ String "}" k) = Some (z, String "}" k).
Proof.
  intros Hz. unfold json.readInt.
  rewrite spanNumber_append by apply Itoa_number.
  rewrite Atoi_Itoa by exact Hz. reflexivity.
Qed.

Lemma readInt_fits s z rest : json.readInt s = Some (z, rest) -> GoInt.fits z.
Proof.
  unfold json.readInt. destruct (json.spanNumber s) as [num r].
  destruct (strconv.Atoi num) as [v [e |]] eqn:Hv; [discriminate |].
  intros [= <- _]. exact (Atoi_fits _ _ Hv).
Qed.

Lemma decode_encode p :
  GoInt.fits (Balance p) -> json.decode (json.encode p) = Some (coerced p).
Proof.
  intros Hb. destruct p as [ot nm cat bal]. unfold json.decode, json.encode.
  cbn [ObjectType Name Category Balance] in *.
  rewrite <- append_assoc, expect_append. cbn [mbind option_bind].
  rewrite readString_writeString. cbn [mbind option_bind].
  rewrite <- append_assoc, expect_append. cbn [mbind option_bind].
  rewrite readString_writeString. cbn [mbind option_bind].
  rewrite <- append_assoc, expect_append. cbn [mbind option_bind].
  rewrite readString_writeString. cbn [mbind option_bind].
  rewrite <- append_assoc, expect_append. cbn [mbind option_bind].
  rewrite readInt_Itoa by exact Hb. reflexivity.
Qed.

(** What the decoder accepts: the strings it read are valid UTF-8 and the
    balance fits an [int]. *)
Lemma decode_inv s p :
  json.decode s = Some p -> validText p = true /\ GoInt.fits (Balance p).
Proof.
  unfold json.decode.
  destruct (json.expect _ s) as [s1 |]; [| done]. cbn [mbind option_bind].
  destruct (json.readString s1) as [[objectType s2] |] eqn:Hot; [| done].
  cbn [mbind option_bind].
  destruct (json.expect _ s2) as [s3 |]; [| done]. cbn [mbind option_bind].
  destruct (json.readString s3) as [[name s4] |] eqn:Hname; [| done].
  cbn [mbind option_bind].
  destruct (json.expect _ s4) as [s5 |]; [| done]. cbn [mbind option_bind].
  destruct (json.readString s5) as [[category s6] |] eqn:Hcat; [| done].
  cbn [mbind option_bind].
  destruct (json.expect _ s6) as [s7 |]; [| done]. cbn [mbind option_bind].
  destruct (json.readInt s7) as [[balance s8] |] eqn:Hint; [| done].
  cbn [mbind option_bind].
  destruct (String.eqb s8 _); [| done].
  intros [= <-]. split; [| exact (readInt_fits _ _ _ Hint)].
  unfold validText. cbn [ObjectType Name Category].
  by rewrite (readString_valid _ _ _ Hot), (readString_valid _ _ _ Hname),
    (readString_valid _ _ _ Hcat).
Qed.

Lemma json_Unmarshal_Marshal p :
  GoInt.fits (Balance p) -> json.Unmarshal (json.Marshal p) = inr (coerced p).
Proof.
  intros Hb. unfold json.Unmarshal, json.Marshal.
  rewrite string_of_list_byte_of_string, (decode_encode p Hb).
  destruct p; reflexivity.
Qed.

Lemma json_Unmarshal_inv b p :
  json.Unmarshal b = inr p -> validText p = true /\ GoInt.fits (Balance p).
Proof.
  unfold json.Unmarshal. destruct b as [| x b]; [discriminate |].
  destruct (json.decode _) as [q |] eqn:Hq; [| discriminate].
  intros [= <-]. exact (decode_inv _ _ Hq).
Qed.

Lemma json_Unmarshal_valid b p : json.Unmarshal b = inr p -> validText p = true.
Proof. intros Hp. exact (proj1 (json_Unmarshal_inv _ _ Hp)). Qed.

Lemma json_Unmarshal_fits b p : json.Unmarshal b = inr p -> GoInt.fits (Balance p).
Proof. intros Hp. exact (proj2 (json_Unmarshal_inv _ _ Hp)). Qed.

#[export] Instance jsonCodec : Codec := {|
  Marshal := json.Marshal;
  Unmarshal := json.Unmarshal;
  Unmarshal_Marshal := json_Unmarshal_Marshal;
  Unmarshal_valid := json_Unmarshal_valid;
  Unmarshal_fits := json_Unmarshal_fits;
  Unmarshal_nil := eq_refl
|}.

(** ** The ledger stub *)

Section LedgerFacts.

Context `{codec : Codec} `{tables : strings.CaseTables}.

Lemma PutState_ok stub key p :
  PutFault stub key = None -> PutState stub key (Marshal p) = inr (put stub key p).
Proof. unfold PutState, put. by intros ->. Qed.

Lemma PutState_inv stub key p stub' :
  PutState stub key (Marshal p) = inr stub' ->
  PutFault stub key = None /\ stub' = put stub key p.
Proof. unfold PutState, put. destruct (PutFault stub key); by intros [= <-]. Qed.

(** A record of valid UTF-8 text is encoded as it is. *)
Lemma coerced_valid p : validText p = true -> coerced p = p.
Proof.
  unfold validText. intros [[Ho Hn]%andb_true_iff Hc]%andb_true_iff.
  destruct p as [o n c b]. unfold coerced. cbn [ObjectType Name Category Balance] in *.
  by rewrite !coerce_valid.
Qed.

Lemma validText_withBalance p z : validText (withBalance p z) = validText p.
Proof. reflexivity. Qed.

Lemma stored_put_coerced stub key p :
  GoInt.fits (Balance p) -> stored (put stub key p) key = Some (coerced p).
Proof.
  intros Hp. unfold stored, put. cbn [State].
  by rewrite lookup_insert_eq, Unmarshal_Marshal.
Qed.

Lemma stored_put_eq stub key p :
  validText p = true -> GoInt.fits (Balance p) ->
  stored (put stub key p) key = Some p.
Proof.
  intros Hv Hp. by rewrite stored_put_coerced, coerced_valid.
Qed.

(** The strings of a record read from the ledger are valid UTF-8. *)
Lemma stored_valid stub key p : stored stub key = Some p -> validText p = true.
Proof.
  unfold stored. destruct (State stub !! key) as [b |]; [| done].
  destruct (Unmarshal b) as [e | q] eqn:Hq; [done |].
  intros [= <-]. exact (Unmarshal_valid _ _ Hq).
Qed.

Lemma stored_put_ne stub key key' p :
  key <> key' -> stored (put stub key p) key' = stored stub key'.
Proof. intros Hne. unfold stored, put. cbn [State]. by rewrite lookup_insert_ne. Qed.

Lemma stored_Some stub key p :
  stored stub key = Some p <-> Unmarshal (slice (State stub !! key)) = inr p.
Proof.
  unfold stored. destruct (State stub !! key) as [b |]; simpl.
  - destruct (Unmarshal b); split; congruence.
  - rewrite Unmarshal_nil. split; congruence.
Qed.

(** *** What a transfer does, step by step *)

(** A transfer that succeeds has read three records that decode, has found
    no restricted category and no shortage, and has written the tax
    authority (unless the receiver is exempt), the sender and the receiver,
    in this order. *)
Lemma transferPoints_success stub sender receiver points rest :
  fst (transferPoints stub (sender :: receiver :: points :: rest)) = Success None ->
  exists s r t,
    stored stub sender = Some s /\ stored stub receiver = Some r /\
    stored stub taxAuth = Some t /\
    String.eqb (Category s) "TaxAuth" = false /\
    String.eqb (Category r) "TaxAuth" = false /\
    fst (strconv.Atoi points) <= Balance s /\
    let amount := fst (strconv.Atoi points) in
    let s' := withBalance s (GoInt.sub (Balance s) amount) in
    snd (transferPoints stub (sender :: receiver :: points :: rest)) =
      if String.eqb (Category r) "TaxExempt" then
        put (put stub sender s') receiver
          (withBalance r (GoInt.add (Balance r) amount))
      else
        put (put (put stub taxAuth
                    (withBalance t (GoInt.add (Balance t) (taxPoints amount))))
               sender s')
          receiver
          (withBalance r (GoInt.add (Balance r) (GoInt.sub amount (taxPoints amount)))).
Proof.
  unfold transferPoints.
  destruct (GetState stub sender) as [e | [sb |]] eqn:Hgs; [done | | done].
  cbn [isNil].
  destruct (GetState stub receiver) as [e | rb] eqn:Hgr; [done |].
  destruct (GetState stub taxAuth) as [e | tb] eqn:Hgt; [done |].
  destruct (Unmarshal (slice tb)) as [e | t] eqn:Ht; [done |].
  destruct (Unmarshal (slice (Some sb))) as [e | s] eqn:Hs; [done |].
  destruct (Unmarshal (slice rb)) as [e | r] eqn:Hr; [done |].
  destruct (String.eqb (Category s) "TaxAuth") eqn:Hcs; [done |].
  destruct (String.eqb (Category r) "TaxAuth") eqn:Hcr; [done |].
  destruct (Z.ltb_spec (Balance s) (fst (strconv.Atoi points))) as [| Hle]; [done |].
  unfold GetState in Hgs, Hgr, Hgt.
  destruct (GetFault stub sender); [done |].
  destruct (GetFault stub receiver); [done |].
  destruct (GetFault stub taxAuth); [done |].
  injection Hgs as Hgs. injection Hgr as <-. injection Hgt as <-.
  rewrite <- Hgs in Hs.
  intros Hok. exists s, r, t.
  rewrite !stored_Some. do 6 (split; [done |]). cbv zeta.
  destruct (String.eqb (Category r) "TaxExempt").
  - destruct (PutState stub sender _) as [e | stub2] eqn:Hp2; [done |].
    apply PutState_inv in Hp2 as [_ ->].
    destruct (PutState _ receiver _) as [e | stub3] eqn:Hp3; [done |].
    apply PutState_inv in Hp3 as [_ ->]. reflexivity.
  - destruct (PutState stub taxAuth _) as [e | stub1] eqn:Hp1; [done |].
    apply PutState_inv in Hp1 as [_ ->].
    destruct (PutState _ sender _) as [e | stub2] eqn:Hp2; [done |].
    apply PutState_inv in Hp2 as [_ ->].
    destruct (PutState _ receiver _) as [e | stub3] eqn:Hp3; [done |].
    apply PutState_inv in Hp3 as [_ ->]. reflexivity.
Qed.

(** The same, forwards: a transfer that passes every check and whose writes
    do not fail succeeds.  Here the receiver is not exempt. *)
Lemma transferPoints_taxed_run stub sender receiver points rest s r t :
  GetFault stub sender = None -> GetFault stub receiver = None ->
  GetFault stub taxAuth = None ->
  PutFault stub sender = None -> PutFault stub receiver = None ->
  PutFault stub taxAuth = None ->
  stored stub sender = Some s -> stored stub receiver = Some r ->
  stored stub taxAuth = Some t ->
  String.eqb (Category s) "TaxAuth" = false ->
  String.eqb (Category r) "TaxAuth" = false ->
  String.eqb (Category r) "TaxExempt" = false ->
  fst (strconv.Atoi points) <= Balance s ->
  fst (transferPoints stub (sender :: receiver :: points :: rest)) = Success None.
Proof.
  intros Hgs Hgr Hgt Hps Hpr Hpt Hs Hr Ht Hcs Hcr Hex Hle.
  unfold transferPoints, GetState. rewrite Hgs, Hgr, Hgt.
  apply stored_Some in Hr, Ht. rewrite Ht.
  unfold stored in Hs. destruct (State stub !! sender) as [sb |]; [| done].
  cbn [isNil slice]. destruct (Unmarshal sb) as [| s0]; [done |].
  injection Hs as ->. rewrite Hr, Hcs, Hcr, Hex.
  destruct (Z.ltb_spec (Balance s) (fst (strconv.Atoi points))); [lia |].
  rewrite PutState_ok by done.
  rewrite PutState_ok by done.
  rewrite PutState_ok by done. reflexivity.
Qed.


(** A transfer that fails before its first write leaves the stub as it
    was; a transfer from a sender with too small a balance is one. *)
Lemma transferPoints_short stub sender receiver points rest s :
  stored stub sender = Some s -> Balance s < fst (strconv.Atoi points) ->
  (exists msg, fst (transferPoints stub (sender :: receiver :: points :: rest)) = Error msg)
  /\ snd (transferPoints stub (sender :: receiver :: points :: rest)) = stub.
Proof.
  intros Hs Hlt. unfold transferPoints, GetState.
  destruct (GetFault stub sender); [eauto |].
  unfold stored in Hs. destruct (State stub !! sender) as [sb |]; [| done].
  cbn [isNil slice]. destruct (Unmarshal sb) as [| s0] eqn:Hsb; [done |].
  injection Hs as ->.
  destruct (GetFault stub receiver); [eauto |].
  destruct (GetFault stub taxAuth); [eauto |].
  destruct (Unmarshal (slice (State stub !! taxAuth))); [eauto |].
  destruct (Unmarshal (slice (State stub !! receiver))); [eauto |].
  destruct (String.eqb (Category s) "TaxAuth"); [eauto |].
  destruct (String.eqb (Category _) "TaxAuth"); [eauto |].
  destruct (Z.ltb_spec (Balance s) (fst (strconv.Atoi points))); [eauto | lia].
Qed.


End LedgerFacts.

(** ** Creating and reading a participant *)

Section Lifecycle.

Context `{codec : Codec} `{tables : strings.CaseTables}.

Lemma length_nonempty (s : string) : s <> "" -> (String.length s <=? 0)%nat = false.
Proof. destruct s; [done | reflexivity]. Qed.

(** What a successful [initParty] was given and what it wrote. *)
Lemma initParty_success stub args :
  fst (initParty stub args) = Success None ->
  exists name category balanceText balance,
    args = [name; category; balanceText] /\
    name <> "" /\ category <> "" /\ balanceText <> "" /\
    strconv.Atoi balanceText = (balance, None) /\
    GetFault stub name = None /\ State stub !! name = None /\
    snd (initParty stub args) =
      put stub name (mkParticipant "participant" name (strings.ToLower category) balance).
Proof.
  unfold initParty.
  destruct args as [| name [| category [| balanceText [| ? ?]]]]; try done.
  destruct name as [| c0 name]; [done |].
  destruct category as [| c1 category]; [done |].
  destruct balanceText as [| c2 balanceText]; [done |].
  cbn [String.length Nat.leb].
  destruct (strconv.Atoi _) as [balance [e |]] eqn:Hb; [done |].
  unfold GetState.
  destruct (GetFault stub _) eqn:Hg; [done |].
  destruct (State stub !! _) eqn:Hst; [done |].
  destruct (PutState _ _ _) as [e | stub'] eqn:Hp; [done |].
  apply PutState_inv in Hp as [_ ->]. intros _.
  eexists _, _, _, balance. by repeat split.
Qed.

(** An invocation of [initParty] leaves the stub as it was or creates one
    record. *)
Lemma initParty_stub stub args :
  snd (initParty stub args) = stub \/
  exists name category balanceText balance,
    args = [name; category; balanceText] /\
    fst (initParty stub args) = Success None /\
    strconv.Atoi balanceText = (balance, None) /\ State stub !! name = None /\
    snd (initParty stub args) =
      put stub name (mkParticipant "participant" name (strings.ToLower category) balance).
Proof.
  destruct (fst (initParty stub args)) as [[payload |] | msg] eqn:Hres.
  - left. revert Hres. unfold initParty, GetState. repeat case_match; done.
  - right. pose proof Hres as Hok. apply initParty_success in Hres
      as (name & category & bt & b & -> & _ & _ & _ & Hb & _ & Hst & Hsnd).
    by exists name, category, bt, b.
  - left. revert Hres. unfold initParty, GetState.
    repeat case_match; done.
Qed.

(** C6. When the key [name] already holds a record, [initParty] fails and
    writes nothing: the stub, and with it the stored record and its
    balance, is the one before the call.  For arguments that pass the
    checks made before the lookup, on a store whose read does not fail, the
    failure is the one of an existing participant. *)
Theorem initParty_existing stub name category balanceText b :
  State stub !! name = Some b ->
  (exists msg, fst (initParty stub [name; category; balanceText]) = Error msg) /\
  snd (initParty stub [name; category; balanceText]) = stub /\
  (name <> "" -> category <> "" -> balanceText <> "" ->
   snd (strconv.Atoi balanceText) = None -> GetFault stub name = None ->
   fst (initParty stub [name; category; balanceText])
   = Error ("This Participant already exists: " +:+ name)).
Proof.
  intros Hb. unfold initParty, GetState. rewrite Hb. split; [| split].
  - repeat case_match; simplify_eq; eauto.
  - repeat case_match; by simplify_eq.
  - intros Hn Hc Ht Hparse Hg.
    rewrite !length_nonempty, Hg by done.
    destruct (strconv.Atoi balanceText) as [z [e |]]; [done | reflexivity].
Qed.

(** C8. After a successful [initParty] of [name], [category] and a
    [balanceText] that parses to [b], [readParty] of [name] succeeds and
    its payload decodes to the participant of the lower-case form of the
    category, of balance [b] and of the name with every byte that is not
    part of an encoded rune replaced by U+FFFD, as the encoder of line 109
    writes it.  The decoded name is the name given exactly when the name
    is valid UTF-8. *)
Theorem create_read_round_trip stub name category balanceText b :
  fst (initParty stub [name; category; balanceText]) = Success None ->
  strconv.Atoi balanceText = (b, None) ->
  let stub' := snd (initParty stub [name; category; balanceText]) in
  exists payload,
    readParty stub' [name] = (Success (Some payload), stub') /\
    Unmarshal payload
    = inr (mkParticipant "participant" (utf8.coerce name)
             (strings.ToLower category) b) /\
    (utf8.coerce name = name <-> utf8.ValidString name = true).
Proof.
  intros Hok Hb stub'.
  apply initParty_success in Hok
    as (n & c & bt & b' & [= <- <- <-] & _ & _ & _ & Hb' & Hg & _ & Hsnd).
  rewrite Hb in Hb'. injection Hb' as <-.
  subst stub'. rewrite Hsnd.
  eexists. unfold readParty, GetState, put. cbn [GetFault State].
  rewrite Hg, lookup_insert_eq. split; [reflexivity |]. split.
  - rewrite Unmarshal_Marshal by exact (Atoi_fits _ _ Hb).
    unfold coerced. cbn [ObjectType Name Category Balance].
    by rewrite coerce_ToLower.
  - apply coerce_fixed.
Qed.

(** A creation with well-formed arguments under a free key succeeds when
    the store does not fail. *)
Lemma initParty_fresh stub name category balanceText :
  name <> "" -> category <> "" -> balanceText <> "" ->
  snd (strconv.Atoi balanceText) = None ->
  State stub !! name = None ->
  GetFault stub name = None -> PutFault stub name = None ->
  fst (initParty stub [name; category; balanceText]) = Success None.
Proof.
  intros Hn Hc Ht Hparse Hst Hg Hp. unfold initParty, GetState.
  rewrite !length_nonempty, Hg, Hst by done.
  destruct (strconv.Atoi balanceText) as [z [e |]]; [done |].
  by rewrite PutState_ok.
Qed.

End Lifecycle.

(** ** Transfers that fail *)

Section Rejections.

Context `{codec : Codec} `{tables : strings.CaseTables}.

(** C5. A transfer of more than the sender's stored balance fails and
    writes nothing: the stub after the call is the stub before it.  When
    the checks made before the balance check pass (the three reads succeed,
    the receiver and the tax authority decode, no category is restricted),
    the failure is the one of the insufficient balance. *)
Theorem transferPoints_insufficient stub sender receiver points rest s :
  stored stub sender = Some s -> Balance s < fst (strconv.Atoi points) ->
  let result := transferPoints stub (sender :: receiver :: points :: rest) in
  (exists msg, fst result = Error msg) /\ snd result = stub /\
  (forall r t,
     GetFault stub sender = None -> GetFault stub receiver = None ->
     GetFault stub taxAuth = None ->
     stored stub receiver = Some r -> stored stub taxAuth = Some t ->
     Category s <> "TaxAuth" -> Category r <> "TaxAuth" ->
     fst result = Error "There is no enough balance in the sender account").
Proof.
  intros Hs Hlt result.
  destruct (transferPoints_short stub sender receiver points rest s Hs Hlt)
    as [Hfail Hsame].
  split; [exact Hfail |]. split; [exact Hsame |].
  intros r t Hgs Hgr Hgt Hr Ht Hcs Hcr.
  subst result. unfold transferPoints, GetState. rewrite Hgs, Hgr, Hgt.
  apply stored_Some in Hr, Ht. rewrite Ht.
  unfold stored in Hs. destruct (State stub !! sender) as [sb |]; [| done].
  cbn [isNil slice]. destruct (Unmarshal sb) as [| s0]; [done |].
  injection Hs as ->. rewrite Hr.
  apply String.eqb_neq in Hcs, Hcr. rewrite Hcs, Hcr.
  destruct (Z.ltb_spec (Balance s) (fst (strconv.Atoi points))); [done | lia].
Qed.

(** A transfer to a key that holds no record passes the test of line 182,
    which looks at the sender's bytes, and fails when the receiver's empty
    bytes are decoded. *)
Lemma transferPoints_missing_receiver stub sender receiver points rest s t :
  GetFault stub sender = None -> GetFault stub receiver = None ->
  GetFault stub taxAuth = None ->
  stored stub sender = Some s -> stored stub taxAuth = Some t ->
  State stub !! receiver = None ->
  transferPoints stub (sender :: receiver :: points :: rest)
  = (Error "unexpected end of JSON input", stub).
Proof.
  intros Hgs Hgr Hgt Hs Ht Hr.
  unfold transferPoints, GetState. rewrite Hgs, Hgr, Hgt, Hr.
  apply stored_Some in Ht. rewrite Ht.
  unfold stored in Hs. destruct (State stub !! sender) as [sb |]; [| done].
  cbn [isNil slice]. destruct (Unmarshal sb) as [| s0]; [done |].
  by rewrite Unmarshal_nil.
Qed.

(** The same for a ledger without the tax authority's record. *)
Lemma transferPoints_missing_authority stub sender receiver points rest s :
  GetFault stub sender = None -> GetFault stub receiver = None ->
  GetFault stub taxAuth = None ->
  stored stub sender = Some s -> State stub !! taxAuth = None ->
  transferPoints stub (sender :: receiver :: points :: rest)
  = (Error "unexpected end of JSON input", stub).
Proof.
  intros Hgs Hgr Hgt Hs Ht.
  unfold transferPoints, GetState. rewrite Hgs, Hgr, Hgt, Ht.
  unfold stored in Hs. destruct (State stub !! sender) as [sb |]; [| done].
  cbn [isNil slice]. by rewrite Unmarshal_nil.
Qed.


End Rejections.

(** ** Transfers that succeed *)

Section Balances.

Context `{codec : Codec} `{tables : strings.CaseTables}.

Lemma balanceOf_put_eq stub key p :
  GoInt.fits (Balance p) -> balanceOf (put stub key p) key = Some (Balance p).
Proof. intros Hp. unfold balanceOf. by rewrite stored_put_coerced. Qed.

Lemma balanceOf_put_ne stub key key' p :
  key <> key' -> balanceOf (put stub key p) key' = balanceOf stub key'.
Proof. intros Hne. unfold balanceOf. by rewrite stored_put_ne. Qed.

(** The tax: without overflow of the doubling it is the quotient
    truncated toward zero, which is the quotient rounded down for an
    amount that is not negative and one more than it for a negative amount
    that leaves a remainder. *)
Lemma taxPoints_quot a :
  GoInt.fits (a * 2) ->
  taxPoints a = Z.quot (a * 2) 100 /\
  (0 <= a -> taxPoints a = a * 2 / 100) /\
  (a < 0 -> (a * 2) mod 100 <> 0 -> taxPoints a = a * 2 / 100 + 1).
Proof.
  intros Ha. unfold taxPoints, GoInt.mul, GoInt.div.
  rewrite (wrap_id (a * 2)) by exact Ha.
  assert (Hq : GoInt.fits (Z.quot (a * 2) 100)).
  { revert Ha. unfold GoInt.fits, GoInt.MinInt, GoInt.MaxInt, GoInt.intSize.
    change (2 ^ (64 - 1)) with 9223372036854775808.
    intros Ha. Z.quot_rem_to_equations. lia. }
  rewrite (wrap_id _ Hq). split; [reflexivity |]. split.
  - intros Hpos. apply Z.quot_div_nonneg; lia.
  - intros Hneg Hrem. Z.quot_rem_to_equations. Z.div_mod_to_equations. lia.
Qed.

(** The amount without its tax fits an [int]. *)
Lemma net_fits a :
  GoInt.fits (a * 2) -> GoInt.sub a (taxPoints a) = a - Z.quot (a * 2) 100.
Proof.
  intros Ha. destruct (taxPoints_quot a Ha) as [-> _].
  apply wrap_id. revert Ha.
  unfold GoInt.fits, GoInt.MinInt, GoInt.MaxInt, GoInt.intSize.
  change (2 ^ (64 - 1)) with 9223372036854775808.
  intros Ha. Z.quot_rem_to_equations. lia.
Qed.

(** *** The total of the ledger *)

Lemma value_Marshal p : GoInt.fits (Balance p) -> value (Marshal p) = Balance p.
Proof. intros Hp. unfold value. by rewrite Unmarshal_Marshal. Qed.

Lemma value_stored stub key b p :
  State stub !! key = Some b -> stored stub key = Some p -> value b = Balance p.
Proof.
  unfold stored, value. intros ->. by destruct (Unmarshal b); intros [= ->].
Qed.

Lemma totalBalance_put stub key p q :
  stored stub key = Some p -> GoInt.fits (Balance q) ->
  totalBalance (put stub key q) = totalBalance stub - Balance p + Balance q.
Proof.
  intros Hp Hq. unfold totalBalance, put. cbn [State].
  assert (Hb : exists b, State stub !! key = Some b).
  { unfold stored in Hp. destruct (State stub !! key); [eauto | done]. }
  destruct Hb as [b Hb].
  rewrite <- insert_delete_eq.
  rewrite map_fold_insert_L; [| intros; lia | apply lookup_delete_eq].
  rewrite (map_fold_delete_L _ _ key b (State stub)); [| intros; lia | exact Hb].
  rewrite (value_Marshal q Hq), (value_stored stub key b p Hb Hp). lia.
Qed.

(** *** The three writes of a taxed transfer *)

Lemma settled_receiver stub sender receiver s r t amount :
  balanceOf (settled stub sender receiver s r t amount) receiver
  = Some (GoInt.add (Balance r) (GoInt.sub amount (taxPoints amount))).
Proof. unfold settled. rewrite balanceOf_put_eq; [done | apply wrap_fits]. Qed.

Lemma settled_sender stub sender receiver s r t amount :
  sender <> receiver ->
  balanceOf (settled stub sender receiver s r t amount) sender
  = Some (GoInt.sub (Balance s) amount).
Proof.
  intros Hne. unfold settled.
  rewrite balanceOf_put_ne by done.
  rewrite balanceOf_put_eq; [done | apply wrap_fits].
Qed.

Lemma settled_authority stub sender receiver s r t amount :
  sender <> taxAuth -> receiver <> taxAuth ->
  balanceOf (settled stub sender receiver s r t amount) taxAuth
  = Some (GoInt.add (Balance t) (taxPoints amount)).
Proof.
  intros Hs Hr. unfold settled.
  rewrite !balanceOf_put_ne by done.
  rewrite balanceOf_put_eq; [done | apply wrap_fits].
Qed.

Lemma transferPoints_settled stub sender receiver points rest s r t :
  fst (transferPoints stub (sender :: receiver :: points :: rest)) = Success None ->
  stored stub sender = Some s -> stored stub receiver = Some r ->
  stored stub taxAuth = Some t ->
  Category r <> "TaxExempt" ->
  snd (transferPoints stub (sender :: receiver :: points :: rest))
  = settled stub sender receiver s r t (fst (strconv.Atoi points)).
Proof.
  intros Hok Hs Hr Ht Hex.
  apply transferPoints_success in Hok
    as (s0 & r0 & t0 & Hs0 & Hr0 & Ht0 & _ & _ & _ & Hsnd).
  simplify_eq. cbv zeta in Hsnd.
  apply String.eqb_neq in Hex. rewrite Hex in Hsnd. exact Hsnd.
Qed.

(** C1, amended.  A successful transfer between three distinct keys
    (sender, receiver, tax authority) whose receiver is not exempt: with
    [amount] the value of the third argument and [tax] the tax on it, the
    stored balances are the sender's less [amount], the receiver's plus
    [amount - tax] and the tax authority's plus [tax], in the arithmetic of
    [int].  The tax is [amount * 2 / 100] truncated toward zero, which is
    the rounded down quotient when the amount is not negative.  When no
    result leaves the range of [int] the balances change by exactly these
    integers and the sum of the three is the one before the transfer. *)
Theorem transferPoints_taxed stub sender receiver points rest s r t :
  fst (transferPoints stub (sender :: receiver :: points :: rest)) = Success None ->
  stored stub sender = Some s -> stored stub receiver = Some r ->
  stored stub taxAuth = Some t ->
  sender <> receiver -> sender <> taxAuth -> receiver <> taxAuth ->
  Category r <> "TaxExempt" ->
  let amount := fst (strconv.Atoi points) in
  let tax := taxPoints amount in
  let stub' := snd (transferPoints stub (sender :: receiver :: points :: rest)) in
  (balanceOf stub' sender = Some (GoInt.sub (Balance s) amount) /\
   balanceOf stub' receiver = Some (GoInt.add (Balance r) (GoInt.sub amount tax)) /\
   balanceOf stub' taxAuth = Some (GoInt.add (Balance t) tax)) /\
  (GoInt.fits (amount * 2) ->
   tax = Z.quot (amount * 2) 100 /\ (0 <= amount -> tax = amount * 2 / 100)) /\
  (GoInt.fits (amount * 2) -> GoInt.fits (Balance s - amount) ->
   GoInt.fits (Balance r + (amount - tax)) -> GoInt.fits (Balance t + tax) ->
   balanceOf stub' sender = Some (Balance s - amount) /\
   balanceOf stub' receiver = Some (Balance r + (amount - tax)) /\
   balanceOf stub' taxAuth = Some (Balance t + tax) /\
   (Balance s - amount) + (Balance r + (amount - tax)) + (Balance t + tax)
   = Balance s + Balance r + Balance t).
Proof.
  intros Hok Hs Hr Ht Hsr Hst Hrt Hex. cbv zeta.
  set (amount := fst (strconv.Atoi points)).
  set (tax := taxPoints amount).
  set (stub' := snd (transferPoints stub (sender :: receiver :: points :: rest))).
  assert (Hstub : stub' = settled stub sender receiver s r t amount)
    by (by apply transferPoints_settled).
  assert (Hbal :
    balanceOf stub' sender = Some (GoInt.sub (Balance s) amount) /\
    balanceOf stub' receiver = Some (GoInt.add (Balance r) (GoInt.sub amount tax)) /\
    balanceOf stub' taxAuth = Some (GoInt.add (Balance t) tax)).
  { rewrite Hstub. split; [by apply settled_sender |].
    split; [apply settled_receiver | by apply settled_authority]. }
  split; [exact Hbal |]. split.
  - intros Ha. destruct (taxPoints_quot amount Ha) as (Hq & Hfloor & _). done.
  - intros Ha Hfs Hfr Hft. destruct Hbal as (Hbs & Hbr & Hbt).
    rewrite Hbs, Hbr, Hbt. unfold GoInt.sub at 1, GoInt.add.
    destruct (taxPoints_quot amount Ha) as (Hq & _). fold tax in Hq.
    pose proof (net_fits amount Ha) as Hnet. fold tax in Hnet.
    rewrite Hnet, <- Hq, !wrap_id by done.
    repeat split; lia.
Qed.

(** C9, amended.  A transfer from [n] to [n], for a key [n] other than the
    tax authority's, on a store without faults: when [n] holds at least the
    amount and its category is neither marker, the call succeeds, the
    balance stored for [n] is the one before plus [amount - tax] (the write
    of the credit replaces the write of the debit) and the tax authority
    gains the tax, in the arithmetic of [int]; when no result leaves the
    range of [int] the total of all stored balances grows by [amount]. *)
Theorem transferPoints_self stub n points rest p t :
  n <> taxAuth -> reliable stub ->
  stored stub n = Some p -> stored stub taxAuth = Some t ->
  Category p <> "TaxAuth" -> Category p <> "TaxExempt" ->
  fst (strconv.Atoi points) <= Balance p ->
  let amount := fst (strconv.Atoi points) in
  let tax := taxPoints amount in
  let result := transferPoints stub (n :: n :: points :: rest) in
  fst result = Success None /\
  balanceOf (snd result) n = Some (GoInt.add (Balance p) (GoInt.sub amount tax)) /\
  balanceOf (snd result) taxAuth = Some (GoInt.add (Balance t) tax) /\
  (GoInt.fits (amount * 2) ->
   GoInt.fits (Balance p + amount - Z.quot (amount * 2) 100) ->
   GoInt.fits (Balance t + Z.quot (amount * 2) 100) ->
   balanceOf (snd result) n = Some (Balance p + amount - Z.quot (amount * 2) 100) /\
   balanceOf (snd result) taxAuth = Some (Balance t + Z.quot (amount * 2) 100) /\
   totalBalance (snd result) = totalBalance stub + amount).
Proof.
  intros Hn [Hget Hput] Hp Ht Hauth Hex Hle. cbv zeta.
  set (amount := fst (strconv.Atoi points)) in *.
  set (result := transferPoints stub (n :: n :: points :: rest)).
  assert (Hok : fst result = Success None).
  { apply (transferPoints_taxed_run stub n n points rest p p t); auto;
      by apply String.eqb_neq. }
  assert (Hstub : snd result = settled stub n n p p t amount)
    by (by apply transferPoints_settled).
  split; [exact Hok |]. rewrite Hstub.
  split; [apply settled_receiver |]. split; [by apply settled_authority |].
  intros Ha Hfn Hft.
  rewrite settled_receiver, settled_authority by done.
  unfold GoInt.add. rewrite (net_fits amount Ha).
  destruct (taxPoints_quot amount Ha) as (Hq & _). rewrite Hq.
  replace (Balance p + (amount - Z.quot (amount * 2) 100))
    with (Balance p + amount - Z.quot (amount * 2) 100) by lia.
  rewrite !wrap_id by done. split; [done |]. split; [done |].
  unfold settled.
  rewrite (totalBalance_put _ n (withBalance p (GoInt.sub (Balance p) amount)));
    [| apply stored_put_eq;
       [exact (stored_valid _ _ _ Hp) | apply wrap_fits] | apply wrap_fits].
  rewrite (totalBalance_put _ n p);
    [| by rewrite stored_put_ne | apply wrap_fits].
  rewrite (totalBalance_put _ taxAuth t); [| done | apply wrap_fits].
  cbn [Balance withBalance]. unfold GoInt.add.
  rewrite (net_fits amount Ha), Hq.
  replace (Balance p + (amount - Z.quot (amount * 2) 100))
    with (Balance p + amount - Z.quot (amount * 2) 100) by lia.
  rewrite !wrap_id by done. lia.
Qed.

(** The exempt branch, for a ledger that holds a record with the category
    TaxExempt: the receiver is credited the whole amount and the only
    writes are the sender's and the receiver's. *)
Lemma transferPoints_exempt stub sender receiver points rest s r :
  fst (transferPoints stub (sender :: receiver :: points :: rest)) = Success None ->
  stored stub sender = Some s -> stored stub receiver = Some r ->
  Category r = "TaxExempt" ->
  let amount := fst (strconv.Atoi points) in
  let stub' := snd (transferPoints stub (sender :: receiver :: points :: rest)) in
  balanceOf stub' receiver = Some (GoInt.add (Balance r) amount) /\
  Writes stub'
  = (receiver, Marshal (withBalance r (GoInt.add (Balance r) amount)))
      :: (sender, Marshal (withBalance s (GoInt.sub (Balance s) amount)))
      :: Writes stub.
Proof.
  intros Hok Hs Hr Hex. cbv zeta.
  apply transferPoints_success in Hok
    as (s0 & r0 & t0 & Hs0 & Hr0 & _ & _ & _ & _ & Hsnd).
  simplify_eq. cbv zeta in Hsnd.
  rewrite Hex, String.eqb_refl in Hsnd. rewrite Hsnd.
  split; [| reflexivity].
  rewrite balanceOf_put_eq; [done | apply wrap_fits].
Qed.

(** C10, amended.  A negative amount is not rejected.  On a store without
    faults, for a sender and a receiver whose categories are neither marker
    and a sender holding at least the (negative) amount [a], the transfer
    succeeds.  It writes the tax authority with its balance plus the tax,
    the sender with its balance less [a] and the receiver with its balance
    plus [a - tax], in the arithmetic of [int].  So the receiver's stored
    balance changes by [a - tax] and, for a sender other than the receiver,
    the sender's grows by [- a]; exactly so when the results fit an [int].
    The tax is [a * 2 / 100] truncated toward zero: one more than the
    rounded down quotient when 100 does not divide [a * 2]; for -51 it is
    -1 where rounding down gives -2. *)
Theorem transferPoints_negative stub sender receiver points rest a s r t :
  strconv.Atoi points = (a, None) -> a < 0 ->
  reliable stub ->
  stored stub sender = Some s -> stored stub receiver = Some r ->
  stored stub taxAuth = Some t ->
  Category s <> "TaxAuth" -> Category r <> "TaxAuth" ->
  Category r <> "TaxExempt" ->
  a <= Balance s ->
  let tax := taxPoints a in
  let result := transferPoints stub (sender :: receiver :: points :: rest) in
  fst result = Success None /\
  Writes (snd result)
  = (receiver, Marshal (withBalance r (GoInt.add (Balance r) (GoInt.sub a tax))))
      :: (sender, Marshal (withBalance s (GoInt.sub (Balance s) a)))
      :: (taxAuth, Marshal (withBalance t (GoInt.add (Balance t) tax)))
      :: Writes stub /\
  balanceOf (snd result) receiver = Some (GoInt.add (Balance r) (GoInt.sub a tax)) /\
  (sender <> receiver ->
   balanceOf (snd result) sender = Some (GoInt.sub (Balance s) a) /\
   (GoInt.fits (Balance s - a) ->
    balanceOf (snd result) sender = Some (Balance s + - a))) /\
  (GoInt.fits (a * 2) ->
   tax = Z.quot (a * 2) 100 /\
   ((a * 2) mod 100 <> 0 -> tax = a * 2 / 100 + 1) /\
   (GoInt.fits (Balance r + (a - tax)) ->
    balanceOf (snd result) receiver = Some (Balance r + (a - tax)))) /\
  taxPoints (-51) = -1 /\ -51 * 2 / 100 = -2.
Proof.
  intros Ha Hneg [Hget Hput] Hs Hr Ht Hcs Hcr Hex Hle. cbv zeta.
  set (result := transferPoints stub (sender :: receiver :: points :: rest)).
  assert (Hamount : fst (strconv.Atoi points) = a) by (by rewrite Ha).
  assert (Hok : fst result = Success None).
  { apply (transferPoints_taxed_run stub sender receiver points rest s r t);
      auto; try (by apply String.eqb_neq); by rewrite Hamount. }
  assert (Hstub : snd result = settled stub sender receiver s r t a).
  { rewrite <- Hamount. by apply transferPoints_settled. }
  split; [exact Hok |]. rewrite Hstub.
  split; [reflexivity |].
  rewrite settled_receiver.
  split; [done |]. split; [| split].
  - intros Hsr. rewrite settled_sender by done. split; [done |].
    intros Hf. unfold GoInt.sub. rewrite wrap_id by done. f_equal; lia.
  - intros H2. destruct (taxPoints_quot a H2) as (Hq & _ & Hceil).
    split; [exact Hq |]. split; [by apply Hceil |].
    intros Hf. unfold GoInt.add. rewrite (net_fits a H2).
    rewrite <- Hq, wrap_id by done. reflexivity.
  - split; reflexivity.
Qed.

End Balances.

(** ** The categories of the reachable states *)

Section Categories.

Context `{codec : Codec} `{tables : strings.CaseTables}.

Lemma lowercased_mono history call stub :
  lowercased history stub -> lowercased (call :: history) stub.
Proof.
  intros Hinv key b Hb.
  destruct (Hinv key b Hb) as (p & category & bt & Hin & Hp & Hc).
  exists p, category, bt. split; [by right | done].
Qed.

Lemma lowercased_put history stub key p category balanceText :
  lowercased history stub ->
  In ("initParty", [key; category; balanceText], Success None) history ->
  Category p = strings.ToLower category -> GoInt.fits (Balance p) ->
  lowercased history (put stub key p).
Proof.
  intros Hinv Hin Hc Hfit key' b. unfold put. cbn [State].
  destruct (decide (key = key')) as [<- | Hne].
  - rewrite lookup_insert_eq. intros [= <-].
    exists (coerced p), category, balanceText.
    rewrite Unmarshal_Marshal by done. unfold coerced. cbn [Category].
    by rewrite Hc, coerce_ToLower.
  - rewrite lookup_insert_ne by done. apply Hinv.
Qed.

Lemma lowercased_stored history stub key p :
  lowercased history stub -> stored stub key = Some p ->
  exists category balanceText,
    In ("initParty", [key; category; balanceText], Success None) history /\
    Category p = strings.ToLower category.
Proof.
  intros Hinv. unfold stored.
  destruct (State stub !! key) as [b |] eqn:Hb; [| done].
  destruct (Hinv key b Hb) as (q & category & bt & Hin & -> & Hc).
  intros [= <-]. eauto.
Qed.

(** A transfer only rewrites records of the ledger with other balances. *)
Lemma transferPoints_rebalanced stub args :
  rebalanced stub (snd (transferPoints stub args)).
Proof.
  unfold transferPoints.
  destruct args as [| sender [| receiver [| points rest]]]; try constructor.
  unfold GetState.
  destruct (GetFault stub sender); [constructor |].
  destruct (State stub !! sender) as [sb |] eqn:Hsb; [| constructor].
  cbn [isNil].
  destruct (GetFault stub receiver); [constructor |].
  destruct (GetFault stub taxAuth); [constructor |].
  destruct (Unmarshal (slice (State stub !! taxAuth))) as [| t] eqn:Ht;
    [constructor |].
  destruct (Unmarshal (slice (Some sb))) as [| s] eqn:Hs; [constructor |].
  destruct (Unmarshal (slice (State stub !! receiver))) as [| r] eqn:Hr;
    [constructor |].
  rewrite <- Hsb in Hs. apply stored_Some in Hs, Hr, Ht.
  repeat case_match; simplify_eq/=; try constructor;
    repeat match goal with
    | H : PutState _ _ (Marshal _) = inr _ |- _ =>
        apply PutState_inv in H as [_ ->]
    end;
    repeat (apply rebalanced_put; [| done]); constructor.
Qed.

Lemma rebalanced_lowercased history stub stub' :
  lowercased history stub -> rebalanced stub stub' -> lowercased history stub'.
Proof.
  intros Hinv. induction 1 as [| stub' key p z _ IH Hp]; [exact Hinv |].
  destruct (lowercased_stored _ _ _ _ Hinv Hp) as (category & bt & Hin & Hc).
  eapply lowercased_put; [exact IH | exact Hin | exact Hc | apply wrap_fits].
Qed.

Lemma initParty_lowercased history stub args :
  lowercased history stub ->
  lowercased (("initParty", args, fst (initParty stub args)) :: history)
    (snd (initParty stub args)).
Proof.
  intros Hinv.
  destruct (initParty_stub stub args)
    as [-> | (name & category & bt & b & -> & -> & Hb & _ & ->)].
  - by apply lowercased_mono.
  - eapply lowercased_put; [by apply lowercased_mono | by left | done |].
    exact (Atoi_fits _ _ Hb).
Qed.

Lemma readParty_stub stub args : snd (readParty stub args) = stub.
Proof. unfold readParty. repeat case_match; done. Qed.

Lemma Invoke_lowercased history stub function args :
  lowercased history stub ->
  lowercased ((function, args, fst (Invoke stub function args)) :: history)
    (snd (Invoke stub function args)).
Proof.
  intros Hinv. unfold Invoke.
  destruct (String.eqb_spec function "initParty") as [-> |];
    [by apply initParty_lowercased |].
  apply lowercased_mono.
  destruct (String.eqb function "transferPoints").
  - eapply rebalanced_lowercased; [exact Hinv | apply transferPoints_rebalanced].
  - destruct (String.eqb function "readParty"); [| done].
    by rewrite readParty_stub.
Qed.

Lemma reachable_lowercased history stub :
  reachable history stub -> lowercased history stub.
Proof.
  induction 1 as [gf pf | history stub function args _ IH | history stub gf pf _ IH].
  - intros key b. unfold withFaults, newStub. cbn [State].
    by rewrite lookup_empty.
  - by apply Invoke_lowercased.
  - exact IH.
Qed.

(** A transfer that fails with a message of the chaincode's own fails for
    this reason, unless a decoder or the store failed with these words. *)
Lemma transferPoints_restricted stub args :
  fst (transferPoints stub args)
  = Error "Tax Authority cann't Participate in any transaction" ->
  (exists key, Unmarshal (slice (State stub !! key))
               = inl "Tax Authority cann't Participate in any transaction") \/
  (exists key, PutFault stub key
               = Some "Tax Authority cann't Participate in any transaction") \/
  (exists key p, stored stub key = Some p /\ String.eqb (Category p) "TaxAuth" = true).
Proof.
  unfold transferPoints.
  destruct args as [| sender [| receiver [| points rest]]]; try done.
  unfold GetState.
  destruct (GetFault stub sender); [done |].
  destruct (State stub !! sender) as [sb |] eqn:Hsb; [| done].
  cbn [isNil].
  destruct (GetFault stub receiver); [done |].
  destruct (GetFault stub taxAuth); [done |].
  destruct (Unmarshal (slice (State stub !! taxAuth))) as [e | t] eqn:Ht.
  { intros [= ->]. left. by exists taxAuth. }
  destruct (Unmarshal (slice (Some sb))) as [e | s] eqn:Hs.
  { intros [= ->]. left. exists sender. by rewrite Hsb. }
  destruct (Unmarshal (slice (State stub !! receiver))) as [e | r] eqn:Hr.
  { intros [= ->]. left. by exists receiver. }
  rewrite <- Hsb in Hs. apply stored_Some in Hs, Hr, Ht.
  destruct (String.eqb (Category s) "TaxAuth") eqn:Hcs; [by eauto 6 |].
  destruct (String.eqb (Category r) "TaxAuth") eqn:Hcr; [by eauto 6 |].
  destruct (_ <? _); [done |].
  unfold PutState.
  destruct (String.eqb (Category r) "TaxExempt").
  - destruct (PutFault stub sender) eqn:Hps; [intros [= ->]; eauto 6 |].
    cbn [PutFault].
    destruct (PutFault stub receiver) eqn:Hpr; [intros [= ->]; eauto 6 | done].
  - destruct (PutFault stub taxAuth) eqn:Hpt; [intros [= ->]; eauto 6 |].
    cbn [PutFault].
    destruct (PutFault stub sender) eqn:Hps; [intros [= ->]; eauto 6 |].
    cbn [PutFault].
    destruct (PutFault stub receiver) eqn:Hpr; [intros [= ->]; eauto 6 | done].
Qed.

(** C4.  In a state reached from the empty ledger by invocations of the
    chaincode, every stored value decodes to a participant whose category
    is the lower-case form of the category given at its creation, whatever
    transfers were made since.  So no stored category is one of the two
    mixed-case markers: the tests of lines 215, 217 and 230 are false on
    all records read.  No transfer is rejected for a restricted category
    (on a store without faults, which could answer with any text), and
    every successful transfer writes the tax authority, the sender and the
    receiver: it is never the exempt one of two writes. *)
Theorem reachable_lowercase history stub :
  reachable history stub ->
  lowercased history stub /\
  (forall key p, stored stub key = Some p ->
     String.eqb (Category p) "TaxAuth" = false /\
     String.eqb (Category p) "TaxExempt" = false) /\
  (forall args, reliable stub ->
     fst (transferPoints stub args)
     <> Error "Tax Authority cann't Participate in any transaction") /\
  (forall sender receiver points rest,
     fst (transferPoints stub (sender :: receiver :: points :: rest)) = Success None ->
     exists s r t,
       Writes (snd (transferPoints stub (sender :: receiver :: points :: rest)))
       = (receiver, Marshal r) :: (sender, Marshal s) :: (taxAuth, Marshal t)
           :: Writes stub).
Proof.
  intros Hreach. pose proof (reachable_lowercased _ _ Hreach) as Hinv.
  assert (Hmark : forall key p, stored stub key = Some p ->
            String.eqb (Category p) "TaxAuth" = false /\
            String.eqb (Category p) "TaxExempt" = false).
  { intros key p Hp.
    destruct (lowercased_stored _ _ _ _ Hinv Hp) as (category & bt & _ & ->).
    apply ToLower_not_marker. }
  split; [exact Hinv |]. split; [exact Hmark |]. split.
  - intros args [_ Hput] Hres.
    apply transferPoints_restricted in Hres as [[key He] | [[key He] | (key & p & Hp & Hc)]].
    + destruct (State stub !! key) as [b |] eqn:Hb; cbn [slice] in He.
      * destruct (Hinv key b Hb) as (p & _ & _ & _ & Hp & _). congruence.
      * rewrite Unmarshal_nil in He. discriminate.
    + rewrite Hput in He. discriminate.
    + destruct (Hmark key p Hp) as [Hc' _]. congruence.
  - intros sender receiver points rest Hok.
    apply transferPoints_success in Hok
      as (s & r & t & _ & Hr & _ & _ & _ & _ & Hsnd).
    cbv zeta in Hsnd. destruct (Hmark receiver r Hr) as [_ Hex].
    rewrite Hex in Hsnd. rewrite Hsnd. unfold put. cbn [Writes]. eauto.
Qed.

End Categories.

(** ** The scenarios, evaluated with the JSON codec *)

Lemma run_reachable `{codec : Codec} `{tables : strings.CaseTables} calls :
  forall history stub,
    reachable history stub ->
    reachable (journal calls stub history) (run calls stub).
Proof.
  induction calls as [| [function args] calls IH]; intros history stub Hr;
    [exact Hr |].
  cbn [run journal]. apply IH. by constructor.
Qed.

(** C2.  Carol is created with the category TaxExempt, stored as
    taxexempt.  The transfer of 100 from Alice to her succeeds; it credits
    Carol 98 and the tax authority 2, and its first write is the tax
    authority's record. *)
Theorem exempt_receiver_is_taxed :
  let result := transferPoints withCarol ["Alice"; "Carol"; "100"] in
  stored withCarol "Carol" = Some (mkParticipant "participant" "Carol" "taxexempt" 0) /\
  balanceOf withCarol "TaxAuth" = Some 0 /\
  fst result = Success None /\
  balanceOf (snd result) "Carol" = Some 98 /\
  balanceOf (snd result) "TaxAuth" = Some 2 /\
  map fst (Writes (snd result))
  = "Carol" :: "Alice" :: "TaxAuth" :: map fst (Writes withCarol).
Proof. vm_compute. repeat split. Qed.

(** C3.  Alice exists, MissingUser does not: the transfer fails, with the
    decoder's error on empty input and not with the failure of a receiver
    that does not exist, and the ledger is unchanged.  A ledger without the
    tax authority's record fails a transfer in the same way. *)
Theorem missing_record_fails_in_decoder :
  State threeParties !! "MissingUser" = None /\
  transferPoints threeParties ["Alice"; "MissingUser"; "10"]
  = (Error "unexpected end of JSON input", threeParties) /\
  State noAuthority !! "TaxAuth" = None /\
  transferPoints noAuthority ["Alice"; "Bob"; "10"]
  = (Error "unexpected end of JSON input", noAuthority).
Proof.
  split; [reflexivity |]. split.
  - eapply transferPoints_missing_receiver; reflexivity.
  - split; [reflexivity |].
    eapply transferPoints_missing_authority; reflexivity.
Qed.

(** C1, as stated, fails for a negative amount: Alice sends -51 to Bob;
    the tax is -1 and Bob's balance becomes -50, where the rounded down
    quotient -2 gives -49. *)
Lemma taxed_transfer_negative_amount :
  ~ taxedTransferAsStated threeParties "Alice" "Bob" "-51".
Proof.
  intros Hclaim.
  destruct (Hclaim (-51)
              (mkParticipant "participant" "Alice" "normal" 500)
              (mkParticipant "participant" "Bob" "normal" 0)
              (mkParticipant "participant" "TaxAuth" "taxauth" 0))
    as [Hbob _]; try reflexivity; try (intros Heq; discriminate Heq).
  vm_compute in Hbob. discriminate Hbob.
Qed.


(** C8, as stated, fails for a name that is not valid UTF-8: the
    participant created under the one byte FF is stored with the name
    U+FFFD, the three bytes EF BF BD, and is read back with it. *)
Lemma round_trip_of_broken_name :
  ~ roundTripAsStated newStub brokenName "Normal" "500".
Proof.
  intros Hclaim.
  destruct (Hclaim 500) as (payload & p & Hread & Hp & Hname & _);
    try reflexivity; try (intros Heq; discriminate Heq).
  vm_compute in Hread. injection Hread as <-.
  vm_compute in Hp. injection Hp as <-.
  vm_compute in Hname. discriminate Hname.
Qed.

(** C9, as stated, fails when [n] is the tax authority's key: the tax
    authority holds 1000 and sends itself 100; it ends with 1098, not with
    the 1002 of a gained tax, and the total grows by 98. *)
Lemma self_transfer_of_authority :
  ~ selfTransferAsStated authorityOnly "TaxAuth" "100".
Proof.
  intros Hclaim.
  destruct (Hclaim 100
              (mkParticipant "participant" "TaxAuth" "taxauth" 1000)
              (mkParticipant "participant" "TaxAuth" "taxauth" 1000))
    as (_ & _ & Hauth & _); try reflexivity; try (intros Heq; discriminate Heq).
  - split; reflexivity.
  - vm_compute in Hauth. discriminate Hauth.
Qed.

(** C10, as stated, fails when the sender is the receiver: Alice, who has
    500, sends herself -51; the write of the credit replaces the write of
    the debit and she ends with 450, not with the 551 of a balance grown
    by 51. *)
Lemma negative_self_transfer :
  ~ negativeAmountAsStated threeParties "Alice" "Alice" "-51".
Proof.
  intros Hclaim.
  destruct (Hclaim (-51)
              (mkParticipant "participant" "Alice" "normal" 500)
              (mkParticipant "participant" "Alice" "normal" 500)
              (mkParticipant "participant" "TaxAuth" "taxauth" 0))
    as (_ & Hsender & _); try reflexivity; try (intros Heq; discriminate Heq).
  - split; reflexivity.
  - vm_compute in Hsender. discriminate Hsender.
Qed.

(** *** The theorems at the scenarios of the specification *)

(** Closed facts about the range of [int] and about orders, by evaluation. *)
Ltac fits_by_evaluation := vm_compute; split; intros Hc; discriminate Hc.
Ltac order_by_evaluation := vm_compute; intros Hc; discriminate Hc.
Ltac distinct_keys := intros Hc; discriminate Hc.

(** Scenario 3: Alice sends Bob 100; the tax is 2. *)
Lemma transferPoints_taxed_witness :
  let stub' := snd (transferPoints threeParties ["Alice"; "Bob"; "100"]) in
  fst (transferPoints threeParties ["Alice"; "Bob"; "100"]) = Success None /\
  taxPoints 100 = 100 * 2 / 100 /\
  balanceOf stub' "Alice" = Some (500 - 100) /\
  balanceOf stub' "Bob" = Some (0 + (100 - 2)) /\
  balanceOf stub' "TaxAuth" = Some (0 + 2).
Proof.
  assert (Hok : fst (transferPoints threeParties ["Alice"; "Bob"; "100"]) = Success None)
    by (vm_compute; reflexivity).
  assert (Hs : stored threeParties "Alice"
               = Some (mkParticipant "participant" "Alice" "normal" 500))
    by (vm_compute; reflexivity).
  assert (Hr : stored threeParties "Bob"
               = Some (mkParticipant "participant" "Bob" "normal" 0))
    by (vm_compute; reflexivity).
  assert (Ht0 : stored threeParties "TaxAuth"
                = Some (mkParticipant "participant" "TaxAuth" "taxauth" 0))
    by (vm_compute; reflexivity).
  destruct (transferPoints_taxed threeParties "Alice" "Bob" "100" [] _ _ _
              Hok Hs Hr Ht0 ltac:(distinct_keys) ltac:(distinct_keys)
              ltac:(distinct_keys) ltac:(distinct_keys))
    as (_ & Htax & Hplain).
  destruct (Htax ltac:(fits_by_evaluation)) as [_ Hfloor].
  destruct (Hplain ltac:(fits_by_evaluation) ltac:(fits_by_evaluation)
              ltac:(fits_by_evaluation) ltac:(fits_by_evaluation))
    as (Ha & Hb & Ht & _).
  split; [exact Hok |].
  split; [exact (Hfloor ltac:(order_by_evaluation)) |].
  split; [exact Ha |]. split; [exact Hb | exact Ht].
Defined.

(** The ledger of the three parties after a transfer is reachable; its
    journal is the one of three creations and a transfer, all successful. *)
Lemma reachable_lowercase_witness :
  let calls := [("initParty", ["Alice"; "Normal"; "500"]);
                ("initParty", ["Bob"; "Normal"; "0"]);
                ("initParty", ["TaxAuth"; "TaxAuth"; "0"]);
                ("transferPoints", ["Alice"; "Bob"; "100"])] in
  reachable (journal calls newStub []) (run calls newStub) /\
  journal calls newStub []
  = [("transferPoints", ["Alice"; "Bob"; "100"], Success None);
     ("initParty", ["TaxAuth"; "TaxAuth"; "0"], Success None);
     ("initParty", ["Bob"; "Normal"; "0"], Success None);
     ("initParty", ["Alice"; "Normal"; "500"], Success None)] /\
  stored (run calls newStub) "TaxAuth"
  = Some (mkParticipant "participant" "TaxAuth" "taxauth" 2) /\
  String.eqb "taxauth" "TaxAuth" = false.
Proof.
  intros calls.
  assert (Hreach : reachable (journal calls newStub []) (run calls newStub))
    by exact (run_reachable calls [] newStub
                (reachable_new (fun _ => None) (fun _ => None))).
  destruct (reachable_lowercase _ _ Hreach) as (_ & Hmark & _).
  assert (Hst : stored (run calls newStub) "TaxAuth"
                = Some (mkParticipant "participant" "TaxAuth" "taxauth" 2))
    by (vm_compute; reflexivity).
  split; [exact Hreach |]. split; [vm_compute; reflexivity |].
  split; [exact Hst |].
  exact (proj1 (Hmark _ _ Hst)).
Defined.

(** Scenario 5: Alice cannot send 10000. *)
Lemma transferPoints_insufficient_witness :
  Balance (mkParticipant "participant" "Alice" "normal" 500)
  < fst (strconv.Atoi "10000") /\
  fst (transferPoints threeParties ["Alice"; "Bob"; "10000"])
  = Error "There is no enough balance in the sender account" /\
  snd (transferPoints threeParties ["Alice"; "Bob"; "10000"]) = threeParties.
Proof.
  assert (Hlt : Balance (mkParticipant "participant" "Alice" "normal" 500)
                < fst (strconv.Atoi "10000")) by (vm_compute; reflexivity).
  assert (Hs : stored threeParties "Alice"
               = Some (mkParticipant "participant" "Alice" "normal" 500))
    by (vm_compute; reflexivity).
  assert (Hr : stored threeParties "Bob"
               = Some (mkParticipant "participant" "Bob" "normal" 0))
    by (vm_compute; reflexivity).
  assert (Ht0 : stored threeParties "TaxAuth"
                = Some (mkParticipant "participant" "TaxAuth" "taxauth" 0))
    by (vm_compute; reflexivity).
  destruct (transferPoints_insufficient threeParties "Alice" "Bob" "10000" []
              _ Hs Hlt)
    as (_ & Hsame & Hmsg).
  split; [exact Hlt |]. split; [| exact Hsame].
  exact (Hmsg _ _ eq_refl eq_refl eq_refl Hr Ht0
           ltac:(distinct_keys) ltac:(distinct_keys)).
Defined.

(** Scenario 2: Alice cannot be created twice. *)
Lemma initParty_existing_witness :
  State threeParties !! "Alice"
  = Some (Marshal (mkParticipant "participant" "Alice" "normal" 500)) /\
  fst (initParty threeParties ["Alice"; "Normal"; "500"])
  = Error "This Participant already exists: Alice" /\
  snd (initParty threeParties ["Alice"; "Normal"; "500"]) = threeParties.
Proof.
  assert (Hsome : State threeParties !! "Alice"
                  = Some (Marshal (mkParticipant "participant" "Alice" "normal" 500)))
    by (vm_compute; reflexivity).
  destruct (initParty_existing threeParties "Alice" "Normal" "500" _ Hsome)
    as (_ & Hsame & Hmsg).
  split; [exact Hsome |]. split; [| exact Hsame].
  exact (Hmsg ltac:(distinct_keys) ltac:(distinct_keys) ltac:(distinct_keys)
           ltac:(vm_compute; reflexivity) eq_refl).
Defined.

(** Scenario 1: Alice is created and read back. *)
Lemma create_read_round_trip_witness :
  exists payload,
    readParty (snd (initParty newStub ["Alice"; "Normal"; "500"])) ["Alice"]
    = (Success (Some payload), snd (initParty newStub ["Alice"; "Normal"; "500"])) /\
    Unmarshal payload = inr (mkParticipant "participant" "Alice" "normal" 500).
Proof.
  assert (Hok : fst (initParty newStub ["Alice"; "Normal"; "500"]) = Success None)
    by (vm_compute; reflexivity).
  assert (Hparse : strconv.Atoi "500" = (500, None)) by (vm_compute; reflexivity).
  assert (Hlower : strings.ToLower "Normal" = "normal") by (vm_compute; reflexivity).
  assert (Hname : utf8.coerce "Alice" = "Alice") by (vm_compute; reflexivity).
  destruct (create_read_round_trip newStub "Alice" "Normal" "500" 500 Hok Hparse)
    as (payload & Hread & Hdec & _).
  exists payload. split; [exact Hread |].
  rewrite Hdec, Hname, Hlower. reflexivity.
Defined.


(** Alice sends herself 100 and ends with 598; the total grows by 100. *)
Lemma transferPoints_self_witness :
  let amount := fst (strconv.Atoi "100") in
  let result := transferPoints threeParties ["Alice"; "Alice"; "100"] in
  fst result = Success None /\
  balanceOf (snd result) "Alice" = Some (500 + amount - Z.quot (amount * 2) 100) /\
  balanceOf (snd result) "TaxAuth" = Some (0 + Z.quot (amount * 2) 100) /\
  totalBalance (snd result) = totalBalance threeParties + amount.
Proof.
  assert (Hp : stored threeParties "Alice"
               = Some (mkParticipant "participant" "Alice" "normal" 500))
    by (vm_compute; reflexivity).
  assert (Ht0 : stored threeParties "TaxAuth"
                = Some (mkParticipant "participant" "TaxAuth" "taxauth" 0))
    by (vm_compute; reflexivity).
  assert (Hrel : reliable threeParties) by (split; intros key; reflexivity).
  destruct (transferPoints_self threeParties "Alice" "100" [] _ _
              ltac:(distinct_keys) Hrel Hp Ht0
              ltac:(distinct_keys) ltac:(distinct_keys)
              ltac:(order_by_evaluation))
    as (Hok & _ & _ & Hplain).
  destruct (Hplain ltac:(fits_by_evaluation) ltac:(fits_by_evaluation)
              ltac:(fits_by_evaluation))
    as (Hn & Ht & Htotal).
  split; [exact Hok |]. split; [exact Hn |]. split; [exact Ht | exact Htotal].
Defined.

(** Alice sends Bob -51: she gains 51, Bob loses 50, the tax is -1. *)
Lemma transferPoints_negative_witness :
  let result := transferPoints threeParties ["Alice"; "Bob"; "-51"] in
  strconv.Atoi "-51" = (-51, None) /\
  fst result = Success None /\
  balanceOf (snd result) "Alice" = Some (500 + - -51) /\
  balanceOf (snd result) "Bob" = Some (0 + (-51 - taxPoints (-51))) /\
  taxPoints (-51) = -51 * 2 / 100 + 1.
Proof.
  assert (Hparse : strconv.Atoi "-51" = (-51, None)) by (vm_compute; reflexivity).
  assert (Hs : stored threeParties "Alice"
               = Some (mkParticipant "participant" "Alice" "normal" 500))
    by (vm_compute; reflexivity).
  assert (Hr : stored threeParties "Bob"
               = Some (mkParticipant "participant" "Bob" "normal" 0))
    by (vm_compute; reflexivity).
  assert (Ht0 : stored threeParties "TaxAuth"
                = Some (mkParticipant "participant" "TaxAuth" "taxauth" 0))
    by (vm_compute; reflexivity).
  assert (Hrel : reliable threeParties) by (split; intros key; reflexivity).
  destruct (transferPoints_negative threeParties "Alice" "Bob" "-51" [] (-51)
              _ _ _ Hparse ltac:(reflexivity) Hrel Hs Hr Ht0
              ltac:(distinct_keys) ltac:(distinct_keys) ltac:(distinct_keys)
              ltac:(order_by_evaluation))
    as (Hok & _ & _ & Hsender & Htax & _).
  destruct (Hsender ltac:(distinct_keys)) as [_ Hplain].
  destruct (Htax ltac:(fits_by_evaluation)) as (_ & Hceil & Hreceiver).
  split; [exact Hparse |]. split; [exact Hok |].
  split; [exact (Hplain ltac:(fits_by_evaluation)) |].
  split; [exact (Hreceiver ltac:(fits_by_evaluation)) |].
  exact (Hceil ltac:(distinct_keys)).
Defined.

(** *** Why the amended statements name the keys and the range *)

(** Alice sends 100 to the key of the tax authority, whose stored category
    taxauth is not restricted: the receiver's write replaces the tax write,
    the tax is lost and the three balances no longer add up. *)
Example transfer_to_authority_key :
  ~ taxedTransferAsStated threeParties "Alice" "TaxAuth" "100".
Proof.
  intros Hclaim.
  destruct (Hclaim 100
              (mkParticipant "participant" "Alice" "normal" 500)
              (mkParticipant "participant" "TaxAuth" "taxauth" 0)
              (mkParticipant "participant" "TaxAuth" "taxauth" 0))
    as (_ & Hauth & _); try reflexivity; try (intros Heq; discriminate Heq).
  vm_compute in Hauth. discriminate Hauth.
Qed.

(** Rich holds the largest [int] and sends itself 100: the credit wraps
    around and the stored balance is negative. *)
Example self_transfer_wraps :
  fst (transferPoints richParty ["Rich"; "Rich"; "100"]) = Success None /\
  balanceOf richParty "Rich" = Some 9223372036854775807 /\
  balanceOf (snd (transferPoints richParty ["Rich"; "Rich"; "100"])) "Rich"
  = Some (-9223372036854775711).
Proof. vm_compute. repeat split. Qed.

(** * More of the chaincode *)

(** ** Creation *)

Section Creation.

Context `{codec : Codec} `{tables : strings.CaseTables}.

(** X1.  [initParty] succeeds exactly when it gets three arguments, none
    empty, whose third [Atoi] accepts, the key is free and neither the read
    nor the write of the key fails. *)
Theorem initParty_succeeds_iff stub args :
  fst (initParty stub args) = Success None <->
  exists name category balanceText,
    args = [name; category; balanceText] /\
    name <> "" /\ category <> "" /\ balanceText <> "" /\
    snd (strconv.Atoi balanceText) = None /\
    GetFault stub name = None /\ State stub !! name = None /\
    PutFault stub name = None.
Proof.
  split.
  - intros Hok. pose proof Hok as Hok'.
    apply initParty_success in Hok'
      as (name & category & bt & b & -> & Hn & Hc & Ht & Hb & Hg & Hst & _).
    exists name, category, bt. repeat (split; [done |]).
    split; [by rewrite Hb |]. repeat (split; [done |]).
    revert Hok. unfold initParty, GetState.
    rewrite !length_nonempty, Hb, Hg, Hst by done.
    unfold PutState. by destruct (PutFault stub name).
  - intros (name & category & bt & -> & Hn & Hc & Ht & Hb & Hg & Hst & Hp).
    by apply initParty_fresh.
Qed.

(** X2.  A successful [initParty] makes one write, of the new record under
    its name, and leaves the value of every other key as it was. *)
Theorem initParty_one_write stub name category balanceText :
  fst (initParty stub [name; category; balanceText]) = Success None ->
  let stub' := snd (initParty stub [name; category; balanceText]) in
  let party := mkParticipant "participant" name (strings.ToLower category)
                 (fst (strconv.Atoi balanceText)) in
  Writes stub' = (name, Marshal party) :: Writes stub /\
  State stub' !! name = Some (Marshal party) /\
  (forall key, key <> name -> State stub' !! key = State stub !! key).
Proof.
  intros Hok. cbv zeta.
  apply initParty_success in Hok
    as (n & c & bt & b & [= <- <- <-] & _ & _ & _ & Hb & _ & _ & ->).
  rewrite Hb. unfold put. cbn [Writes State fst].
  split; [reflexivity |]. split; [apply lookup_insert_eq |].
  intros key Hne. by rewrite lookup_insert_ne.
Qed.

(** X3.  An [initParty] that does not succeed leaves the stub as it was:
    no failure comes after a write. *)
Theorem initParty_failure_writes_nothing stub args :
  fst (initParty stub args) <> Success None ->
  snd (initParty stub args) = stub.
Proof.
  intros Hfail.
  destruct (initParty_stub stub args)
    as [Hsame | (name & category & bt & b & _ & Hok & _)]; [exact Hsame |].
  contradiction.
Qed.

Lemma formatDigits_nonempty fuel : forall n acc,
  fuel <> O \/ acc <> "" -> strconv.formatDigits fuel n acc <> "".
Proof.
  induction fuel as [| fuel IH]; intros n acc Hor; cbn [strconv.formatDigits].
  - by destruct Hor.
  - destruct (n <? 10); [discriminate |]. apply IH. right. discriminate.
Qed.

Lemma Itoa_nonempty z : strconv.Itoa z <> "".
Proof.
  unfold strconv.Itoa. destruct (z <? 0); [discriminate |].
  apply formatDigits_nonempty. left. discriminate.
Qed.

(** X4.  No sign is asked of the balance: every value of type [int], the
    negative ones too, is the balance of a participant created from its
    decimal numeral, on a free key and a store that does not fail. *)
Theorem initParty_any_balance stub name category b :
  GoInt.fits b -> name <> "" -> category <> "" ->
  State stub !! name = None ->
  GetFault stub name = None -> PutFault stub name = None ->
  fst (initParty stub [name; category; strconv.Itoa b]) = Success None /\
  balanceOf (snd (initParty stub [name; category; strconv.Itoa b])) name = Some b.
Proof.
  intros Hb Hn Hc Hst Hg Hp.
  assert (Hok : fst (initParty stub [name; category; strconv.Itoa b]) = Success None).
  { apply initParty_fresh; try done; [apply Itoa_nonempty |].
    by rewrite Atoi_Itoa. }
  split; [exact Hok |].
  apply initParty_success in Hok
    as (n & c & bt & b' & [= <- <- <-] & _ & _ & _ & Hb' & _ & _ & ->).
  rewrite Atoi_Itoa in Hb' by done. injection Hb' as <-.
  unfold balanceOf. by rewrite stored_put_coerced.
Qed.

(** X5.  A second creation under a name fails whatever category and
    balance it brings, and the record of the first creation stays: it
    decodes to the lower-case form of the first category, the first
    balance and the name with every byte that is not part of an encoded
    rune replaced by U+FFFD, which is the name itself exactly when the
    name is valid UTF-8. *)
Theorem initParty_twice stub name category balanceText category' balanceText' :
  fst (initParty stub [name; category; balanceText]) = Success None ->
  category' <> "" -> balanceText' <> "" ->
  snd (strconv.Atoi balanceText') = None ->
  let stub' := snd (initParty stub [name; category; balanceText]) in
  initParty stub' [name; category'; balanceText']
  = (Error ("This Participant already exists: " +:+ name), stub') /\
  stored stub' name
  = Some (mkParticipant "participant" (utf8.coerce name)
            (strings.ToLower category) (fst (strconv.Atoi balanceText))) /\
  (utf8.coerce name = name <-> utf8.ValidString name = true).
Proof.
  intros Hok Hc' Ht' Hb'. cbv zeta.
  apply initParty_success in Hok
    as (n & c & bt & b & [= <- <- <-] & Hn & _ & _ & Hb & Hg & _ & ->).
  rewrite Hb. cbn [fst]. split; [| split].
  - unfold initParty, GetState, put. cbn [GetFault State].
    rewrite !length_nonempty, Hg, lookup_insert_eq by done.
    by destruct (strconv.Atoi balanceText') as [z [e |]].
  - rewrite stored_put_coerced by exact (Atoi_fits _ _ Hb).
    unfold coerced. cbn [ObjectType Name Category Balance].
    by rewrite coerce_ToLower.
  - apply coerce_fixed.
Qed.

End Creation.

(** ** Reading and dispatching *)

Section Reading.

Context `{codec : Codec} `{tables : strings.CaseTables}.

(** X6.  [readParty] never changes the stub, and it succeeds exactly when
    it gets one argument, the read of this key does not fail and the key
    holds a value; the payload then is this value, byte for byte. *)
Theorem readParty_payload stub args :
  snd (readParty stub args) = stub /\
  forall payload,
    fst (readParty stub args) = Success payload <->
    exists name value,
      args = [name] /\ GetFault stub name = None /\
      State stub !! name = Some value /\ payload = Some value.
Proof.
  split; [apply readParty_stub |].
  intros payload. unfold readParty, GetState. split.
  - destruct args as [| name [| ? ?]]; try done.
    destruct (GetFault stub name) eqn:Hg; [done |].
    destruct (State stub !! name) as [value |] eqn:Hv; [| done].
    intros [= <-]. by exists name, value.
  - intros (name & value & -> & -> & -> & ->). reflexivity.
Qed.

(** X7.  [Invoke] changes the ledger through [initParty] and
    [transferPoints] only: under any other function name the stub stays as
    it was, and under a name that is not [readParty] either (the names are
    compared byte for byte) the response is the error of an unknown
    function. *)
Theorem Invoke_other_functions stub function args :
  function <> "initParty" -> function <> "transferPoints" ->
  snd (Invoke stub function args) = stub /\
  (function <> "readParty" ->
   fst (Invoke stub function args) = Error "Received unknown function invocation").
Proof.
  intros Hi Ht. unfold Invoke.
  apply String.eqb_neq in Hi, Ht. rewrite Hi, Ht.
  destruct (String.eqb_spec function "readParty") as [-> | Hr].
  - split; [apply readParty_stub | done].
  - done.
Qed.

End Reading.

(** ** More on transfers *)

Section Transfers.

Context `{codec : Codec} `{tables : strings.CaseTables}.

Lemma stored_fits stub key p : stored stub key = Some p -> GoInt.fits (Balance p).
Proof.
  unfold stored. destruct (State stub !! key) as [b |]; [| done].
  destruct (Unmarshal b) as [| q] eqn:Hq; [done |].
  intros [= <-]. exact (Unmarshal_fits _ _ Hq).
Qed.

Lemma withBalance_same p : withBalance p (Balance p) = p.
Proof. by destruct p. Qed.

(** Writing a record back under its key changes what no key decodes to. *)
Lemma stored_put_same stub key p key' :
  stored stub key = Some p -> stored (put stub key p) key' = stored stub key'.
Proof.
  intros Hp. destruct (decide (key = key')) as [<- | Hne].
  - rewrite stored_put_eq;
      [done | exact (stored_valid _ _ _ Hp) | exact (stored_fits _ _ _ Hp)].
  - by apply stored_put_ne.
Qed.

(** X8.  Whatever its outcome, a transfer leaves the value of every key
    other than the sender's, the receiver's and the tax authority's as it
    was. *)
Theorem transferPoints_frame stub sender receiver points rest key :
  key <> sender -> key <> receiver -> key <> taxAuth ->
  State (snd (transferPoints stub (sender :: receiver :: points :: rest))) !! key
  = State stub !! key.
Proof.
  intros Hs Hr Ht. unfold transferPoints, GetState.
  destruct (GetFault stub sender); [done |].
  destruct (State stub !! sender) as [sb |]; [| done]. cbn [isNil].
  destruct (GetFault stub receiver); [done |].
  destruct (GetFault stub taxAuth); [done |].
  destruct (Unmarshal (slice (State stub !! taxAuth))); [done |].
  destruct (Unmarshal (slice (Some sb))); [done |].
  destruct (Unmarshal (slice (State stub !! receiver))); [done |].
  destruct (String.eqb _ "TaxAuth"); [done |].
  destruct (String.eqb _ "TaxAuth"); [done |].
  destruct (_ <? _); [done |].
  unfold PutState.
  destruct (String.eqb _ "TaxExempt").
  - destruct (PutFault stub sender); [done |]. cbn [PutFault].
    destruct (PutFault stub receiver); cbn [snd State];
      by rewrite ?lookup_insert_ne by done.
  - destruct (PutFault stub taxAuth); [done |]. cbn [PutFault].
    destruct (PutFault stub sender); cbn [snd State];
      [by rewrite ?lookup_insert_ne by done |].
    cbn [PutFault].
    destruct (PutFault stub receiver); cbn [snd State];
      by rewrite ?lookup_insert_ne by done.
Qed.

(** X9.  No write is taken back.  When the store writes the tax authority
    and then refuses the sender, a transfer that passed every check fails
    with the store's error, and the stub is the one after the first write:
    the tax authority holds the tax, the sender still holds the amount. *)
Theorem transferPoints_no_rollback stub sender receiver points rest s r t err :
  GetFault stub sender = None -> GetFault stub receiver = None ->
  GetFault stub taxAuth = None ->
  PutFault stub taxAuth = None -> PutFault stub sender = Some err ->
  stored stub sender = Some s -> stored stub receiver = Some r ->
  stored stub taxAuth = Some t ->
  Category s <> "TaxAuth" -> Category r <> "TaxAuth" ->
  Category r <> "TaxExempt" ->
  fst (strconv.Atoi points) <= Balance s ->
  sender <> taxAuth ->
  let tax := taxPoints (fst (strconv.Atoi points)) in
  let result := transferPoints stub (sender :: receiver :: points :: rest) in
  fst result = Error err /\
  snd result = put stub taxAuth (withBalance t (GoInt.add (Balance t) tax)) /\
  balanceOf (snd result) taxAuth = Some (GoInt.add (Balance t) tax) /\
  balanceOf (snd result) sender = Some (Balance s).
Proof.
  intros Hgs Hgr Hgt Hpt Hps Hs Hr Ht Hcs Hcr Hex Hle Hne. cbv zeta.
  assert (Hrun : transferPoints stub (sender :: receiver :: points :: rest)
                 = (Error err,
                    put stub taxAuth
                      (withBalance t
                         (GoInt.add (Balance t) (taxPoints (fst (strconv.Atoi points))))))).
  { unfold transferPoints, GetState. rewrite Hgs, Hgr, Hgt.
    pose proof Hs as Hs'.
    apply stored_Some in Hr, Ht. rewrite Ht.
    unfold stored in Hs'. destruct (State stub !! sender) as [sb |]; [| done].
    cbn [isNil slice]. destruct (Unmarshal sb) as [| s0]; [done |].
    injection Hs' as ->. rewrite Hr.
    apply String.eqb_neq in Hcs, Hcr, Hex. rewrite Hcs, Hcr, Hex.
    destruct (Z.ltb_spec (Balance s) (fst (strconv.Atoi points))); [lia |].
    rewrite PutState_ok by done.
    unfold PutState at 1. unfold put at 1. cbn [PutFault]. by rewrite Hps. }
  rewrite Hrun. cbn [fst snd]. split; [done |]. split; [done |]. split.
  - apply balanceOf_put_eq, wrap_fits.
  - rewrite balanceOf_put_ne by done. unfold balanceOf. by rewrite Hs.
Qed.

(** X10.  On a store whose writes do not fail, a transfer that does not
    succeed leaves the stub as it was. *)
Theorem transferPoints_failure_writes_nothing stub args :
  (forall key, PutFault stub key = None) ->
  fst (transferPoints stub args) <> Success None ->
  snd (transferPoints stub args) = stub.
Proof.
  intros Hput. unfold transferPoints, GetState.
  destruct args as [| sender [| receiver [| points rest]]]; try done.
  destruct (GetFault stub sender); [done |].
  destruct (State stub !! sender) as [sb |]; [| done]. cbn [isNil].
  destruct (GetFault stub receiver); [done |].
  destruct (GetFault stub taxAuth); [done |].
  destruct (Unmarshal (slice (State stub !! taxAuth))); [done |].
  destruct (Unmarshal (slice (Some sb))); [done |].
  destruct (Unmarshal (slice (State stub !! receiver))); [done |].
  destruct (String.eqb _ "TaxAuth"); [done |].
  destruct (String.eqb _ "TaxAuth"); [done |].
  destruct (_ <? _); [done |].
  unfold PutState.
  destruct (String.eqb _ "TaxExempt"); repeat (rewrite Hput; cbn [PutFault]);
    intros Hfail; exfalso; by apply Hfail.
Qed.

(** X11.  A transfer of the amount 0, which a third argument with a syntax
    error is, can succeed; it then changes what no key decodes to, though
    it writes the records again. *)
Theorem transferPoints_zero stub sender receiver points rest :
  fst (transferPoints stub (sender :: receiver :: points :: rest)) = Success None ->
  fst (strconv.Atoi points) = 0 ->
  forall key,
    stored (snd (transferPoints stub (sender :: receiver :: points :: rest))) key
    = stored stub key.
Proof.
  intros Hok Hzero key.
  apply transferPoints_success in Hok
    as (s & r & t & Hs & Hr & Ht & _ & _ & _ & Hsnd).
  cbv zeta in Hsnd. rewrite Hsnd, Hzero.
  assert (Hsame : forall p, GoInt.fits (Balance p) ->
            withBalance p (GoInt.add (Balance p) 0) = p /\
            withBalance p (GoInt.sub (Balance p) 0) = p).
  { intros p Hp. unfold GoInt.add, GoInt.sub.
    rewrite Z.add_0_r, Z.sub_0_r, wrap_id by done.
    split; apply withBalance_same. }
  destruct (Hsame s (stored_fits _ _ _ Hs)) as [_ ->].
  destruct (Hsame r (stored_fits _ _ _ Hr)) as [Hr0 _].
  destruct (Hsame t (stored_fits _ _ _ Ht)) as [Ht0 _].
  change (taxPoints 0) with 0. change (GoInt.sub 0 0) with 0.
  rewrite Hr0, Ht0.
  destruct (String.eqb (Category r) "TaxExempt").
  - rewrite stored_put_same; [by apply stored_put_same |].
    by rewrite stored_put_same.
  - rewrite stored_put_same.
    + rewrite stored_put_same; [by apply stored_put_same |].
      by rewrite stored_put_same.
    + rewrite stored_put_same; by rewrite stored_put_same.
Qed.

(** The value [Atoi] returns is of type [int], with or without error. *)
Lemma Atoi_value_fits s : GoInt.fits (fst (strconv.Atoi s)).
Proof.
  destruct (strconv.Atoi s) as [v [[|] |]] eqn:Hv; cbn [fst].
  - apply Atoi_syntax in Hv. by subst v.
  - apply Atoi_range in Hv. by destruct Hv as [-> | ->].
  - exact (Atoi_fits _ _ Hv).
Qed.

(** The tax on an amount that is not negative and whose double fits an
    [int] is the fiftieth of it, rounded down. *)
Lemma taxPoints_fiftieth a :
  0 <= a -> GoInt.fits (a * 2) ->
  taxPoints a = a / 50 /\ GoInt.sub a (taxPoints a) = a - a / 50.
Proof.
  intros Ha H2. destruct (taxPoints_quot a H2) as (_ & Hfloor & _).
  assert (Hdiv : a * 2 / 100 = a / 50).
  { replace 100 with (2 * 50) by lia.
    rewrite Z.mul_comm, Z.div_mul_cancel_l; lia. }
  rewrite (Hfloor Ha), Hdiv. split; [reflexivity |].
  apply wrap_id. revert H2.
  unfold GoInt.fits, GoInt.MinInt, GoInt.MaxInt, GoInt.intSize.
  change (2 ^ (64 - 1)) with 9223372036854775808.
  intros H2. Z.div_mod_to_equations. lia.
Qed.

(** The tax on an amount of 2^62 or more: the doubling of line 234 wraps
    around to a negative number. *)
Lemma taxPoints_wrapped a :
  2 ^ 62 <= a -> GoInt.fits a ->
  taxPoints a = Z.quot (a * 2 - 2 ^ 64) 100 /\ taxPoints a <= 0.
Proof.
  unfold GoInt.fits, GoInt.MinInt, GoInt.MaxInt, GoInt.intSize.
  change (2 ^ (64 - 1)) with 9223372036854775808.
  change (2 ^ 62) with 4611686018427387904.
  change (2 ^ 64) with 18446744073709551616.
  intros Hlo Hfit.
  assert (Hmul : GoInt.mul a 2 = a * 2 - 18446744073709551616).
  { unfold GoInt.mul, GoInt.wrap, GoInt.intSize.
    change (2 ^ (64 - 1)) with 9223372036854775808.
    change (2 ^ 64) with 18446744073709551616.
    Z.div_mod_to_equations. lia. }
  unfold taxPoints. rewrite Hmul. unfold GoInt.div.
  rewrite wrap_id.
  - split; [reflexivity |]. Z.quot_rem_to_equations. lia.
  - unfold GoInt.fits, GoInt.MinInt, GoInt.MaxInt, GoInt.intSize.
    change (2 ^ (64 - 1)) with 9223372036854775808.
    Z.quot_rem_to_equations. lia.
Qed.

(** X12.  The tax rate.  In a successful transfer of an amount that is not
    negative and whose double fits an [int], to a receiver that is not
    exempt, with the tax authority a third party, the tax authority is
    credited the fiftieth of the amount, rounded down, and the receiver the
    rest; so an amount below 50 pays no tax. *)
Theorem transferPoints_fiftieth stub sender receiver points rest r t :
  fst (transferPoints stub (sender :: receiver :: points :: rest)) = Success None ->
  stored stub receiver = Some r -> stored stub taxAuth = Some t ->
  sender <> taxAuth -> receiver <> taxAuth ->
  Category r <> "TaxExempt" ->
  0 <= fst (strconv.Atoi points) -> GoInt.fits (fst (strconv.Atoi points) * 2) ->
  let amount := fst (strconv.Atoi points) in
  let stub' := snd (transferPoints stub (sender :: receiver :: points :: rest)) in
  balanceOf stub' taxAuth = Some (GoInt.add (Balance t) (amount / 50)) /\
  balanceOf stub' receiver = Some (GoInt.add (Balance r) (amount - amount / 50)) /\
  (amount < 50 ->
   balanceOf stub' taxAuth = Some (Balance t) /\
   balanceOf stub' receiver = Some (GoInt.add (Balance r) amount)).
Proof.
  intros Hok Hr Ht Hst Hrt Hex Hpos H2. cbv zeta.
  pose proof Hok as Hok'.
  apply transferPoints_success in Hok' as (s & r0 & t0 & Hs & Hr0 & Ht0 & _).
  rewrite Hr in Hr0. injection Hr0 as <-.
  rewrite Ht in Ht0. injection Ht0 as <-.
  rewrite (transferPoints_settled stub sender receiver points rest s r t)
    by done.
  rewrite settled_receiver, settled_authority by done.
  destruct (taxPoints_fiftieth _ Hpos H2) as [-> ->].
  split; [done |]. split; [done |]. intros Hsmall.
  rewrite Z.div_small by lia. rewrite Z.sub_0_r.
  split; [| done]. unfold GoInt.add.
  rewrite Z.add_0_r, wrap_id; [done | exact (stored_fits _ _ _ Ht)].
Qed.

(** The wrapped tax is small, and the points after tax of line 235 are
    computed without wrap-around. *)
Lemma taxPoints_wrapped_bounds a :
  2 ^ 62 <= a -> GoInt.fits a ->
  - 92233720368547758 <= Z.quot (a * 2 - 2 ^ 64) 100 <= 0 /\
  a <= a - Z.quot (a * 2 - 2 ^ 64) 100 <= GoInt.MaxInt.
Proof.
  unfold GoInt.fits, GoInt.MinInt, GoInt.MaxInt, GoInt.intSize.
  change (2 ^ (64 - 1)) with 9223372036854775808.
  change (2 ^ 62) with 4611686018427387904.
  change (2 ^ 64) with 18446744073709551616.
  intros Hlo Hfit. Z.quot_rem_to_equations. lia.
Qed.

(** A sum of two [int]s that leaves the range comes back by 2^64. *)
Lemma wrap_below z :
  GoInt.MinInt - 2 ^ 63 <= z < GoInt.MinInt -> GoInt.wrap z = z + 2 ^ 64.
Proof.
  unfold GoInt.wrap, GoInt.MinInt, GoInt.intSize.
  change (2 ^ (64 - 1)) with 9223372036854775808.
  change (2 ^ 63) with 9223372036854775808.
  change (2 ^ 64) with 18446744073709551616.
  intros Hz. Z.div_mod_to_equations. lia.
Qed.

Lemma wrap_above z :
  GoInt.MaxInt < z <= GoInt.MaxInt + 2 ^ 63 -> GoInt.wrap z = z - 2 ^ 64.
Proof.
  unfold GoInt.wrap, GoInt.MaxInt, GoInt.intSize.
  change (2 ^ (64 - 1)) with 9223372036854775808.
  change (2 ^ 63) with 9223372036854775808.
  change (2 ^ 64) with 18446744073709551616.
  intros Hz. Z.div_mod_to_equations. lia.
Qed.

(** X13.  The doubling overflows.  In a successful transfer of 2^62 points
    or more the product of line 234 wraps around: the tax is the quotient
    of [amount * 2 - 2^64] by 100, negative or zero, and the points after
    tax of line 235 are the amount or more, computed without wrap-around.
    The tax authority's stored balance becomes its balance plus this tax
    and the receiver's its balance plus the points after tax, both in the
    arithmetic of [int].  While the sums stay in the range of [int] the
    tax authority's balance does not rise and the receiver's rises by the
    amount or more.  A sum of the tax authority below the smallest [int]
    wraps around and its stored balance rises; a sum of the receiver above
    the largest [int] wraps around and its stored balance falls. *)
Theorem transferPoints_doubling_overflow stub sender receiver points rest r t :
  fst (transferPoints stub (sender :: receiver :: points :: rest)) = Success None ->
  stored stub receiver = Some r -> stored stub taxAuth = Some t ->
  sender <> taxAuth -> receiver <> taxAuth ->
  Category r <> "TaxExempt" ->
  2 ^ 62 <= fst (strconv.Atoi points) ->
  let amount := fst (strconv.Atoi points) in
  let tax := Z.quot (amount * 2 - 2 ^ 64) 100 in
  let stub' := snd (transferPoints stub (sender :: receiver :: points :: rest)) in
  tax <= 0 /\
  balanceOf stub' taxAuth = Some (GoInt.add (Balance t) tax) /\
  balanceOf stub' receiver = Some (GoInt.add (Balance r) (GoInt.sub amount tax)) /\
  (GoInt.sub amount tax = amount - tax /\ amount <= amount - tax) /\
  (GoInt.MinInt <= Balance t + tax ->
   balanceOf stub' taxAuth = Some (Balance t + tax) /\
   Balance t + tax <= Balance t) /\
  (Balance t + tax < GoInt.MinInt ->
   balanceOf stub' taxAuth = Some (Balance t + tax + 2 ^ 64) /\
   Balance t < Balance t + tax + 2 ^ 64) /\
  (Balance r + (amount - tax) <= GoInt.MaxInt ->
   balanceOf stub' receiver = Some (Balance r + (amount - tax)) /\
   Balance r + amount <= Balance r + (amount - tax)) /\
  (GoInt.MaxInt < Balance r + (amount - tax) ->
   balanceOf stub' receiver = Some (Balance r + (amount - tax) - 2 ^ 64) /\
   Balance r + (amount - tax) - 2 ^ 64 < Balance r).
Proof.
  intros Hok Hr Ht Hst Hrt Hex Hbig. cbv zeta.
  pose proof Hok as Hok'.
  apply transferPoints_success in Hok' as (s & r0 & t0 & Hs & Hr0 & Ht0 & _).
  rewrite Hr in Hr0. injection Hr0 as <-.
  rewrite Ht in Ht0. injection Ht0 as <-.
  rewrite (transferPoints_settled stub sender receiver points rest s r t)
    by done.
  rewrite settled_receiver, settled_authority by done.
  pose proof (Atoi_value_fits points) as Hfit.
  destruct (taxPoints_wrapped _ Hbig Hfit) as [Htax Hneg].
  destruct (taxPoints_wrapped_bounds _ Hbig Hfit) as [Hq Hnet].
  pose proof (stored_fits _ _ _ Hr) as Hfr.
  pose proof (stored_fits _ _ _ Ht) as Hft.
  rewrite Htax in Hneg |- *.
  set (amount := fst (strconv.Atoi points)) in *.
  set (tax := Z.quot (amount * 2 - 2 ^ 64) 100) in *.
  assert (Hsub : GoInt.sub amount tax = amount - tax).
  { apply wrap_id. revert Hfit Hnet.
    unfold GoInt.fits, GoInt.MinInt, GoInt.MaxInt, GoInt.intSize.
    change (2 ^ (64 - 1)) with 9223372036854775808. lia. }
  split; [exact Hneg |]. split; [reflexivity |]. split; [reflexivity |].
  split; [split; [exact Hsub | lia] |].
  rewrite Hsub. unfold GoInt.add.
  revert Hfit Hfr Hft Hnet.
  unfold GoInt.fits, GoInt.MinInt, GoInt.MaxInt, GoInt.intSize.
  change (2 ^ (64 - 1)) with 9223372036854775808.
  change (2 ^ 64) with 18446744073709551616.
  intros Hfit Hfr Hft Hnet.
  split; [| split; [| split]]; intros Hsum.
  - rewrite wrap_id; [split; [reflexivity | lia] |].
    unfold GoInt.fits, GoInt.MinInt, GoInt.MaxInt, GoInt.intSize.
    change (2 ^ (64 - 1)) with 9223372036854775808. lia.
  - rewrite wrap_below; [split; [reflexivity | lia] |].
    unfold GoInt.MinInt, GoInt.intSize.
    change (2 ^ (64 - 1)) with 9223372036854775808.
    change (2 ^ 63) with 9223372036854775808. lia.
  - rewrite wrap_id; [split; [reflexivity | lia] |].
    unfold GoInt.fits, GoInt.MinInt, GoInt.MaxInt, GoInt.intSize.
    change (2 ^ (64 - 1)) with 9223372036854775808. lia.
  - rewrite wrap_above; [split; [reflexivity | lia] |].
    unfold GoInt.MaxInt, GoInt.intSize.
    change (2 ^ (64 - 1)) with 9223372036854775808.
    change (2 ^ 63) with 9223372036854775808. lia.
Qed.

(** X14.  The sender's debit is exact.  After a successful transfer of an
    amount that is not negative, to another key, the sender's stored
    balance is its balance before less the amount, without wrap-around,
    and it is not negative. *)
Theorem transferPoints_debit stub sender receiver points rest s :
  fst (transferPoints stub (sender :: receiver :: points :: rest)) = Success None ->
  stored stub sender = Some s -> sender <> receiver ->
  0 <= fst (strconv.Atoi points) ->
  let amount := fst (strconv.Atoi points) in
  let stub' := snd (transferPoints stub (sender :: receiver :: points :: rest)) in
  balanceOf stub' sender = Some (Balance s - amount) /\ 0 <= Balance s - amount.
Proof.
  intros Hok Hs Hne Hpos. cbv zeta.
  apply transferPoints_success in Hok
    as (s0 & r & t & Hs0 & _ & _ & _ & _ & Hle & Hsnd).
  rewrite Hs in Hs0. injection Hs0 as <-. cbv zeta in Hsnd. rewrite Hsnd.
  pose proof (stored_fits _ _ _ Hs) as Hfit.
  assert (Hsub : GoInt.sub (Balance s) (fst (strconv.Atoi points))
                 = Balance s - fst (strconv.Atoi points)).
  { apply wrap_id. revert Hfit.
    unfold GoInt.fits, GoInt.MinInt, GoInt.MaxInt, GoInt.intSize.
    change (2 ^ (64 - 1)) with 9223372036854775808. lia. }
  split; [| lia].
  destruct (String.eqb (Category r) "TaxExempt");
    rewrite balanceOf_put_ne by done;
    (rewrite balanceOf_put_eq; [| apply wrap_fits]);
    cbn [Balance withBalance]; by rewrite Hsub.
Qed.

(** X15.  The exempt branch, on a ledger that holds the category in its
    mixed case: a successful transfer to a receiver of category TaxExempt
    credits the whole amount, makes the two writes of the sender and of
    the receiver, and leaves the value under the tax authority's key as it
    was when this key is a third one. *)
Theorem transferPoints_exempt_branch stub sender receiver points rest s r :
  fst (transferPoints stub (sender :: receiver :: points :: rest)) = Success None ->
  stored stub sender = Some s -> stored stub receiver = Some r ->
  Category r = "TaxExempt" ->
  let amount := fst (strconv.Atoi points) in
  let stub' := snd (transferPoints stub (sender :: receiver :: points :: rest)) in
  balanceOf stub' receiver = Some (GoInt.add (Balance r) amount) /\
  Writes stub'
  = (receiver, Marshal (withBalance r (GoInt.add (Balance r) amount)))
      :: (sender, Marshal (withBalance s (GoInt.sub (Balance s) amount)))
      :: Writes stub /\
  (sender <> taxAuth -> receiver <> taxAuth ->
   State stub' !! taxAuth = State stub !! taxAuth).
Proof.
  intros Hok Hs Hr Hex. cbv zeta.
  apply transferPoints_success in Hok
    as (s0 & r0 & t0 & Hs0 & Hr0 & _ & _ & _ & _ & Hsnd).
  rewrite Hs in Hs0. injection Hs0 as <-.
  rewrite Hr in Hr0. injection Hr0 as <-. cbv zeta in Hsnd.
  rewrite Hex, String.eqb_refl in Hsnd. rewrite Hsnd.
  split; [rewrite balanceOf_put_eq; [done | apply wrap_fits] |].
  split; [reflexivity |].
  intros Hst Hrt. unfold put. cbn [State].
  by rewrite !lookup_insert_ne.
Qed.

(** X16.  The restriction, on a ledger that holds the category in its
    mixed case: when the three records are read and decode and the
    sender's or the receiver's category is TaxAuth, the transfer is
    rejected and nothing is written. *)
Theorem transferPoints_restricted_branch stub sender receiver points rest s r t :
  GetFault stub sender = None -> GetFault stub receiver = None ->
  GetFault stub taxAuth = None ->
  stored stub sender = Some s -> stored stub receiver = Some r ->
  stored stub taxAuth = Some t ->
  Category s = "TaxAuth" \/ Category r = "TaxAuth" ->
  transferPoints stub (sender :: receiver :: points :: rest)
  = (Error "Tax Authority cann't Participate in any transaction", stub).
Proof.
  intros Hgs Hgr Hgt Hs Hr Ht Hcat.
  unfold transferPoints, GetState. rewrite Hgs, Hgr, Hgt.
  apply stored_Some in Hr, Ht. rewrite Ht.
  unfold stored in Hs. destruct (State stub !! sender) as [sb |]; [| done].
  cbn [isNil slice]. destruct (Unmarshal sb) as [| s0]; [done |].
  injection Hs as ->. rewrite Hr.
  destruct Hcat as [-> | ->]; [done |].
  rewrite String.eqb_refl. by destruct (String.eqb (Category s) "TaxAuth").
Qed.

(** X17.  Conservation over the whole ledger.  A successful transfer of an
    amount that is not negative between three distinct keys (sender,
    receiver, tax authority), the receiver not exempt, leaves the total of
    all stored balances as it was, provided the double of the amount and
    the balances of the receiver and of the tax authority raised by the
    amount fit an [int]. *)
Theorem transferPoints_total stub sender receiver points rest r t :
  fst (transferPoints stub (sender :: receiver :: points :: rest)) = Success None ->
  stored stub receiver = Some r -> stored stub taxAuth = Some t ->
  sender <> receiver -> sender <> taxAuth -> receiver <> taxAuth ->
  Category r <> "TaxExempt" ->
  0 <= fst (strconv.Atoi points) -> GoInt.fits (fst (strconv.Atoi points) * 2) ->
  GoInt.fits (Balance r + fst (strconv.Atoi points)) ->
  GoInt.fits (Balance t + fst (strconv.Atoi points)) ->
  totalBalance (snd (transferPoints stub (sender :: receiver :: points :: rest)))
  = totalBalance stub.
Proof.
  intros Hok Hr Ht Hsr Hst Hrt Hex Hpos H2 Hfr Hft.
  pose proof Hok as Hok'.
  apply transferPoints_success in Hok'
    as (s & r0 & t0 & Hs & Hr0 & Ht0 & _ & _ & Hle & _).
  rewrite Hr in Hr0. injection Hr0 as <-.
  rewrite Ht in Ht0. injection Ht0 as <-.
  rewrite (transferPoints_settled stub sender receiver points rest s r t)
    by done.
  set (amount := fst (strconv.Atoi points)) in *.
  destruct (taxPoints_fiftieth _ Hpos H2) as [Htax Hnet].
  pose proof (stored_fits _ _ _ Hs) as Hfs.
  pose proof (stored_fits _ _ _ Hr) as Hfr0.
  pose proof (stored_fits _ _ _ Ht) as Hft0.
  unfold settled.
  rewrite (totalBalance_put _ receiver r);
    [| by rewrite !stored_put_ne | apply wrap_fits].
  rewrite (totalBalance_put _ sender s);
    [| by rewrite stored_put_ne | apply wrap_fits].
  rewrite (totalBalance_put _ taxAuth t); [| done | apply wrap_fits].
  cbn [Balance withBalance]. rewrite Hnet, Htax.
  unfold GoInt.add, GoInt.sub.
  revert Hfs Hfr0 Hft0 Hfr Hft H2.
  unfold GoInt.fits, GoInt.MinInt, GoInt.MaxInt, GoInt.intSize.
  change (2 ^ (64 - 1)) with 9223372036854775808.
  intros Hfs Hfr0 Hft0 Hfr Hft H2.
  assert (Hq : 0 <= amount / 50 <= amount) by (Z.div_mod_to_equations; lia).
  rewrite !wrap_id;
    unfold GoInt.fits, GoInt.MinInt, GoInt.MaxInt, GoInt.intSize;
    try change (2 ^ (64 - 1)) with 9223372036854775808; lia.
Qed.

End Transfers.

(** ** More on the reachable states *)

Section Reachable.

Context `{codec : Codec} `{tables : strings.CaseTables}.

Lemma rebalanced_keeps_keys stub stub' key :
  rebalanced stub stub' ->
  is_Some (State stub !! key) -> is_Some (State stub' !! key).
Proof.
  induction 1 as [| stub' key' p z _ IH _]; [done |].
  intros Hkey. unfold put. cbn [State].
  destruct (decide (key' = key)) as [-> | Hne].
  - rewrite lookup_insert_eq. by eexists.
  - rewrite lookup_insert_ne by done. by apply IH.
Qed.

Lemma Invoke_keeps_keys stub function args key :
  is_Some (State stub !! key) ->
  is_Some (State (snd (Invoke stub function args)) !! key).
Proof.
  intros Hkey. unfold Invoke.
  destruct (String.eqb function "initParty").
  - destruct (initParty_stub stub args)
      as [-> | (name & category & bt & b & _ & _ & _ & Hfree & ->)]; [done |].
    unfold put. cbn [State].
    destruct (decide (name = key)) as [-> | Hne].
    + rewrite Hfree in Hkey. by destruct Hkey.
    + by rewrite lookup_insert_ne.
  - destruct (String.eqb function "transferPoints").
    + eapply rebalanced_keeps_keys; [apply transferPoints_rebalanced | done].
    + destruct (String.eqb function "readParty"); [| done].
      by rewrite readParty_stub.
Qed.

(** X18.  Nothing is deleted: a key that holds a value holds one after any
    sequence of invocations. *)
Theorem run_keeps_keys calls : forall stub key,
  is_Some (State stub !! key) -> is_Some (State (run calls stub) !! key).
Proof.
  induction calls as [| [function args] calls IH]; intros stub key Hkey;
    [exact Hkey |].
  cbn [run]. apply IH. by apply Invoke_keeps_keys.
Qed.

Lemma coerce_coerce s : utf8.coerce (utf8.coerce s) = utf8.coerce s.
Proof. apply coerce_valid, ValidString_coerce. Qed.

Lemma keyed_put stub key p :
  keyed stub -> utf8.coerce (Name p) = utf8.coerce key ->
  utf8.coerce (ObjectType p) = "participant" ->
  GoInt.fits (Balance p) -> keyed (put stub key p).
Proof.
  intros Hinv Hn Ho Hfit key' b. unfold put. cbn [State].
  destruct (decide (key = key')) as [<- | Hne].
  - rewrite lookup_insert_eq. intros [= <-].
    exists (coerced p). by rewrite Unmarshal_Marshal.
  - rewrite lookup_insert_ne by done. apply Hinv.
Qed.

Lemma rebalanced_keyed stub stub' :
  keyed stub -> rebalanced stub stub' -> keyed stub'.
Proof.
  intros Hinv. induction 1 as [| stub' key p z _ IH Hp]; [exact Hinv |].
  unfold stored in Hp.
  destruct (State stub !! key) as [b |] eqn:Hb; [| done].
  destruct (Hinv key b Hb) as (q & Hq & Hn & Ho & _).
  rewrite Hq in Hp. injection Hp as <-.
  apply keyed_put; [exact IH | | | apply wrap_fits]; cbn [withBalance Name ObjectType].
  - by rewrite Hn, coerce_coerce.
  - by rewrite Ho.
Qed.

Lemma Invoke_keyed stub function args :
  keyed stub -> keyed (snd (Invoke stub function args)).
Proof.
  intros Hinv. unfold Invoke.
  destruct (String.eqb function "initParty").
  - destruct (initParty_stub stub args)
      as [-> | (name & category & bt & b & _ & _ & Hb & _ & ->)]; [done |].
    apply keyed_put; [done | done | done | exact (Atoi_fits _ _ Hb)].
  - destruct (String.eqb function "transferPoints").
    + eapply rebalanced_keyed; [exact Hinv | apply transferPoints_rebalanced].
    + destruct (String.eqb function "readParty"); [| done].
      by rewrite readParty_stub.
Qed.

Lemma reachable_is_keyed history stub : reachable history stub -> keyed stub.
Proof.
  induction 1 as [gf pf | history stub function args _ IH | history stub gf pf _ IH].
  - intros key b. unfold withFaults, newStub. cbn [State].
    by rewrite lookup_empty.
  - by apply Invoke_keyed.
  - exact IH.
Qed.

(** X19.  In every state reached from the empty ledger each stored value
    decodes to a participant record whose document type is participant,
    whose balance is of type [int] and whose name is the key it is stored
    under with every byte that is not part of an encoded rune replaced by
    U+FFFD, as the encoder writes it: the name is the key itself for every
    key that is valid UTF-8, and for no other key.  No transfer renames a
    record or moves it to another key. *)
Theorem reachable_keyed history stub :
  reachable history stub ->
  keyed stub /\
  (forall key p, stored stub key = Some p ->
     Name p = utf8.coerce key /\
     (Name p = key <-> utf8.ValidString key = true)).
Proof.
  intros Hreach. pose proof (reachable_is_keyed _ _ Hreach) as Hinv.
  split; [exact Hinv |].
  intros key p. unfold stored.
  destruct (State stub !! key) as [b |] eqn:Hb; [| done].
  destruct (Hinv key b Hb) as (q & Hq & Hn & _). rewrite Hq.
  intros [= <-]. split; [exact Hn |].
  rewrite Hn. apply coerce_fixed.
Qed.

(** X20.  In a reached state on a store without faults, a transfer
    succeeds exactly when the sender's, the receiver's and the tax
    authority's keys hold records and the sender's balance is at least the
    amount: no category, no sign of the amount and no equality of the keys
    stops it. *)
Theorem reachable_transfer_succeeds_iff history stub sender receiver points rest :
  reachable history stub -> reliable stub ->
  fst (transferPoints stub (sender :: receiver :: points :: rest)) = Success None <->
  exists b,
    balanceOf stub sender = Some b /\ fst (strconv.Atoi points) <= b /\
    is_Some (State stub !! receiver) /\ is_Some (State stub !! taxAuth).
Proof.
  intros Hreach [Hget Hput].
  pose proof (reachable_lowercased _ _ Hreach) as Hinv.
  assert (Hdecodes : forall key, is_Some (State stub !! key) ->
            exists p, stored stub key = Some p /\
                      String.eqb (Category p) "TaxAuth" = false /\
                      String.eqb (Category p) "TaxExempt" = false).
  { intros key [b Hb].
    destruct (Hinv key b Hb) as (p & category & bt & _ & Hp & Hc).
    exists p. unfold stored. rewrite Hb, Hp, Hc.
    split; [done |]. apply ToLower_not_marker. }
  split.
  - intros Hok. apply transferPoints_success in Hok
      as (s & r & t & Hs & Hr & Ht & _ & _ & Hle & _).
    exists (Balance s). unfold balanceOf. rewrite Hs.
    split; [done |]. split; [done |].
    unfold stored in Hr, Ht.
    destruct (State stub !! receiver); [| done].
    destruct (State stub !! taxAuth); [| done]. by split.
  - intros (b & Hb & Hle & Hr & Ht).
    unfold balanceOf in Hb.
    destruct (stored stub sender) as [s |] eqn:Hs; [| done].
    injection Hb as <-.
    assert (Hsender : is_Some (State stub !! sender)).
    { unfold stored in Hs. by destruct (State stub !! sender). }
    destruct (Hdecodes sender Hsender) as (s' & Hs' & Hcs & _).
    rewrite Hs in Hs'. injection Hs' as <-.
    destruct (Hdecodes receiver Hr) as (r & Hr' & Hcr & Hex).
    destruct (Hdecodes taxAuth Ht) as (t & Ht' & _).
    by apply (transferPoints_taxed_run stub sender receiver points rest s r t).
Qed.

End Reachable.

(** ** The further theorems at ledgers of the scenarios *)

(** Alice is created on the empty ledger: one write. *)
Lemma initParty_one_write_witness :
  fst (initParty newStub ["Alice"; "Normal"; "500"]) = Success None /\
  Writes (snd (initParty newStub ["Alice"; "Normal"; "500"]))
  = [("Alice", Marshal (mkParticipant "participant" "Alice"
                          (strings.ToLower "Normal") (fst (strconv.Atoi "500"))))].
Proof.
  assert (Hok : fst (initParty newStub ["Alice"; "Normal"; "500"]) = Success None)
    by (vm_compute; reflexivity).
  split; [exact Hok |].
  exact (proj1 (initParty_one_write newStub "Alice" "Normal" "500" Hok)).
Defined.

(** A creation without a balance text fails and writes nothing. *)
Lemma initParty_failure_writes_nothing_witness :
  fst (initParty threeParties ["Zoe"; "Normal"; ""])
  = Error "3rd argument must be a non-empty string" /\
  snd (initParty threeParties ["Zoe"; "Normal"; ""]) = threeParties.
Proof.
  assert (Hres : fst (initParty threeParties ["Zoe"; "Normal"; ""])
                 = Error "3rd argument must be a non-empty string")
    by (vm_compute; reflexivity).
  split; [exact Hres |].
  apply initParty_failure_writes_nothing.
  rewrite Hres. intros Heq. discriminate Heq.
Defined.

(** Zoe is created in debt. *)
Lemma initParty_any_balance_witness :
  strconv.Itoa (-7) = "-7" /\
  fst (initParty threeParties ["Zoe"; "Normal"; strconv.Itoa (-7)]) = Success None /\
  balanceOf (snd (initParty threeParties ["Zoe"; "Normal"; strconv.Itoa (-7)])) "Zoe"
  = Some (-7).
Proof.
  split; [vm_compute; reflexivity |].
  assert (Hfree : State threeParties !! "Zoe" = None) by (vm_compute; reflexivity).
  exact (initParty_any_balance threeParties "Zoe" "Normal" (-7)
           ltac:(fits_by_evaluation) ltac:(distinct_keys) ltac:(distinct_keys)
           Hfree eq_refl eq_refl).
Defined.

(** Alice is created, then asked for again as an exempt party with 9. *)
Lemma initParty_twice_witness :
  let stub' := snd (initParty newStub ["Alice"; "Normal"; "500"]) in
  initParty stub' ["Alice"; "TaxExempt"; "9"]
  = (Error ("This Participant already exists: " +:+ "Alice"), stub') /\
  stored stub' "Alice"
  = Some (mkParticipant "participant" "Alice" (strings.ToLower "Normal")
            (fst (strconv.Atoi "500"))).
Proof.
  assert (Hok : fst (initParty newStub ["Alice"; "Normal"; "500"]) = Success None)
    by (vm_compute; reflexivity).
  assert (Hparse : snd (strconv.Atoi "9") = None) by (vm_compute; reflexivity).
  assert (Hname : utf8.coerce "Alice" = "Alice") by (vm_compute; reflexivity).
  intros stub'.
  destruct (initParty_twice newStub "Alice" "Normal" "500" "TaxExempt" "9" Hok
              ltac:(distinct_keys) ltac:(distinct_keys) Hparse)
    as (Hfail & Hkept & _).
  split; [exact Hfail |].
  subst stub'. rewrite Hkept, Hname. reflexivity.
Defined.

(** The function names are compared byte for byte. *)
Lemma Invoke_other_functions_witness :
  snd (Invoke threeParties "InitParty" ["Zoe"; "Normal"; "1"]) = threeParties /\
  fst (Invoke threeParties "InitParty" ["Zoe"; "Normal"; "1"])
  = Error "Received unknown function invocation".
Proof.
  destruct (Invoke_other_functions threeParties "InitParty" ["Zoe"; "Normal"; "1"]
              ltac:(distinct_keys) ltac:(distinct_keys)) as [Hsame Hmsg].
  split; [exact Hsame | exact (Hmsg ltac:(distinct_keys))].
Defined.

(** Carol's record is not touched by a transfer from Alice to Bob. *)
Lemma transferPoints_frame_witness :
  State (snd (transferPoints withCarol ["Alice"; "Bob"; "100"])) !! "Carol"
  = State withCarol !! "Carol".
Proof.
  exact (transferPoints_frame withCarol "Alice" "Bob" "100" [] "Carol"
           ltac:(distinct_keys) ltac:(distinct_keys) ltac:(distinct_keys)).
Defined.

(** The store refuses Alice's record: the tax of her transfer of 100 to
    Bob is credited, and she keeps her 500 points. *)
Lemma transferPoints_no_rollback_witness :
  let result := transferPoints refusingAlice ["Alice"; "Bob"; "100"] in
  fst result = Error "write refused" /\
  balanceOf (snd result) "TaxAuth"
  = Some (GoInt.add 0 (taxPoints (fst (strconv.Atoi "100")))) /\
  balanceOf (snd result) "Alice" = Some 500.
Proof.
  assert (Hs : stored refusingAlice "Alice"
               = Some (mkParticipant "participant" "Alice" "normal" 500))
    by (vm_compute; reflexivity).
  assert (Hr : stored refusingAlice "Bob"
               = Some (mkParticipant "participant" "Bob" "normal" 0))
    by (vm_compute; reflexivity).
  assert (Ht : stored refusingAlice "TaxAuth"
               = Some (mkParticipant "participant" "TaxAuth" "taxauth" 0))
    by (vm_compute; reflexivity).
  destruct (transferPoints_no_rollback refusingAlice "Alice" "Bob" "100" []
              _ _ _ "write refused" eq_refl eq_refl eq_refl eq_refl eq_refl
              Hs Hr Ht ltac:(distinct_keys) ltac:(distinct_keys)
              ltac:(distinct_keys) ltac:(order_by_evaluation)
              ltac:(distinct_keys))
    as (Hmsg & _ & Hauth & Halice).
  split; [exact Hmsg |]. split; [exact Hauth | exact Halice].
Defined.

(** A transfer of more than Alice has, on a store without faults. *)
Lemma transferPoints_failure_writes_nothing_witness :
  fst (transferPoints threeParties ["Alice"; "Bob"; "501"])
  = Error "There is no enough balance in the sender account" /\
  snd (transferPoints threeParties ["Alice"; "Bob"; "501"]) = threeParties.
Proof.
  assert (Hres : fst (transferPoints threeParties ["Alice"; "Bob"; "501"])
                 = Error "There is no enough balance in the sender account")
    by (vm_compute; reflexivity).
  split; [exact Hres |].
  apply transferPoints_failure_writes_nothing; [intros key; reflexivity |].
  rewrite Hres. intros Heq. discriminate Heq.
Defined.

(** Alice sends Bob an amount that is no numeral. *)
Lemma transferPoints_zero_witness :
  fst (transferPoints threeParties ["Alice"; "Bob"; "ten"]) = Success None /\
  stored (snd (transferPoints threeParties ["Alice"; "Bob"; "ten"])) "Alice"
  = stored threeParties "Alice" /\
  stored (snd (transferPoints threeParties ["Alice"; "Bob"; "ten"])) "Bob"
  = stored threeParties "Bob".
Proof.
  assert (Hok : fst (transferPoints threeParties ["Alice"; "Bob"; "ten"]) = Success None)
    by (vm_compute; reflexivity).
  assert (Hzero : fst (strconv.Atoi "ten") = 0) by (vm_compute; reflexivity).
  split; [exact Hok |].
  split; exact (transferPoints_zero threeParties "Alice" "Bob" "ten" [] Hok Hzero _).
Defined.

(** Alice sends Bob 49 points: no tax. *)
Lemma transferPoints_fiftieth_witness :
  let stub' := snd (transferPoints threeParties ["Alice"; "Bob"; "49"]) in
  balanceOf stub' "TaxAuth" = Some 0 /\
  balanceOf stub' "Bob" = Some (GoInt.add 0 (fst (strconv.Atoi "49"))).
Proof.
  assert (Hok : fst (transferPoints threeParties ["Alice"; "Bob"; "49"]) = Success None)
    by (vm_compute; reflexivity).
  assert (Hr : stored threeParties "Bob"
               = Some (mkParticipant "participant" "Bob" "normal" 0))
    by (vm_compute; reflexivity).
  assert (Ht : stored threeParties "TaxAuth"
               = Some (mkParticipant "participant" "TaxAuth" "taxauth" 0))
    by (vm_compute; reflexivity).
  destruct (transferPoints_fiftieth threeParties "Alice" "Bob" "49" [] _ _
              Hok Hr Ht ltac:(distinct_keys) ltac:(distinct_keys)
              ltac:(distinct_keys) ltac:(order_by_evaluation)
              ltac:(fits_by_evaluation))
    as (_ & _ & Hsmall).
  exact (Hsmall ltac:(vm_compute; reflexivity)).
Defined.

(** Rich sends Bob 2^62 points: the tax is negative, the tax authority
    ends below zero and Bob with more than was sent. *)
Lemma transferPoints_doubling_overflow_witness :
  let stub' := snd (transferPoints richAndBob ["Rich"; "Bob"; "4611686018427387904"]) in
  Z.quot (4611686018427387904 * 2 - 2 ^ 64) 100 = -92233720368547758 /\
  balanceOf stub' "TaxAuth" = Some (-92233720368547758) /\
  balanceOf stub' "Bob" = Some (4611686018427387904 + 92233720368547758).
Proof.
  assert (Hok : fst (transferPoints richAndBob ["Rich"; "Bob"; "4611686018427387904"])
                = Success None) by (vm_compute; reflexivity).
  assert (Hr : stored richAndBob "Bob"
               = Some (mkParticipant "participant" "Bob" "normal" 0))
    by (vm_compute; reflexivity).
  assert (Ht : stored richAndBob "TaxAuth"
               = Some (mkParticipant "participant" "TaxAuth" "taxauth" 0))
    by (vm_compute; reflexivity).
  destruct (transferPoints_doubling_overflow richAndBob "Rich" "Bob"
              "4611686018427387904" [] _ _
              Hok Hr Ht ltac:(distinct_keys) ltac:(distinct_keys)
              ltac:(distinct_keys) ltac:(order_by_evaluation))
    as (_ & _ & _ & _ & Hauth & _ & Hbob & _).
  split; [vm_compute; reflexivity |].
  split.
  - destruct Hauth as [Hauth _]; [vm_compute; discriminate |].
    etrans; [exact Hauth |]. vm_compute; reflexivity.
  - destruct Hbob as [Hbob _]; [vm_compute; discriminate |].
    etrans; [exact Hbob |]. vm_compute; reflexivity.
Defined.

(** On the ledger of the extremes both sums wrap around: the tax
    authority's balance rises from the smallest [int] and Bob's falls from
    the largest. *)
Example doubling_overflow_wraps :
  let stub' := snd (transferPoints extremes ["Rich"; "Bob"; "4611686018427387904"]) in
  fst (transferPoints extremes ["Rich"; "Bob"; "4611686018427387904"]) = Success None /\
  balanceOf extremes "TaxAuth" = Some (-9223372036854775808) /\
  balanceOf stub' "TaxAuth" = Some 9131138316486228050 /\
  balanceOf extremes "Bob" = Some 9223372036854775807 /\
  balanceOf stub' "Bob" = Some (-4519452298058840147).
Proof. vm_compute. repeat split; reflexivity. Qed.

(** Alice sends Bob 100 and keeps 400. *)
Lemma transferPoints_debit_witness :
  balanceOf (snd (transferPoints threeParties ["Alice"; "Bob"; "100"])) "Alice"
  = Some (500 - fst (strconv.Atoi "100")).
Proof.
  assert (Hok : fst (transferPoints threeParties ["Alice"; "Bob"; "100"]) = Success None)
    by (vm_compute; reflexivity).
  assert (Hs : stored threeParties "Alice"
               = Some (mkParticipant "participant" "Alice" "normal" 500))
    by (vm_compute; reflexivity).
  exact (proj1 (transferPoints_debit threeParties "Alice" "Bob" "100" [] _
                  Hok Hs ltac:(distinct_keys) ltac:(order_by_evaluation))).
Defined.

(** Dana sends Erin, whose stored category is TaxExempt, 100 points. *)
Lemma transferPoints_exempt_branch_witness :
  let stub' := snd (transferPoints markedLedger ["Dana"; "Erin"; "100"]) in
  balanceOf stub' "Erin" = Some (GoInt.add 0 (fst (strconv.Atoi "100"))) /\
  State stub' !! "TaxAuth" = State markedLedger !! "TaxAuth".
Proof.
  assert (Hok : fst (transferPoints markedLedger ["Dana"; "Erin"; "100"]) = Success None)
    by (vm_compute; reflexivity).
  assert (Hs : stored markedLedger "Dana"
               = Some (mkParticipant "participant" "Dana" "normal" 500))
    by (vm_compute; reflexivity).
  assert (Hr : stored markedLedger "Erin"
               = Some (mkParticipant "participant" "Erin" "TaxExempt" 0))
    by (vm_compute; reflexivity).
  destruct (transferPoints_exempt_branch markedLedger "Dana" "Erin" "100" [] _ _
              Hok Hs Hr eq_refl)
    as (Herin & _ & Hauth).
  split; [exact Herin |].
  exact (Hauth ltac:(distinct_keys) ltac:(distinct_keys)).
Defined.

(** The tax authority of the marked ledger cannot send points to Dana. *)
Lemma transferPoints_restricted_branch_witness :
  transferPoints markedLedger ["TaxAuth"; "Dana"; "0"]
  = (Error "Tax Authority cann't Participate in any transaction", markedLedger).
Proof.
  assert (Hs : stored markedLedger "TaxAuth"
               = Some (mkParticipant "participant" "TaxAuth" "TaxAuth" 0))
    by (vm_compute; reflexivity).
  assert (Hr : stored markedLedger "Dana"
               = Some (mkParticipant "participant" "Dana" "normal" 500))
    by (vm_compute; reflexivity).
  exact (transferPoints_restricted_branch markedLedger "TaxAuth" "Dana" "0" []
           _ _ _ eq_refl eq_refl eq_refl Hs Hr Hs (or_introl eq_refl)).
Defined.

(** Alice sends Bob 100: the ledger still holds 500 points in all. *)
Lemma transferPoints_total_witness :
  totalBalance (snd (transferPoints threeParties ["Alice"; "Bob"; "100"]))
  = totalBalance threeParties.
Proof.
  assert (Hok : fst (transferPoints threeParties ["Alice"; "Bob"; "100"]) = Success None)
    by (vm_compute; reflexivity).
  assert (Hr : stored threeParties "Bob"
               = Some (mkParticipant "participant" "Bob" "normal" 0))
    by (vm_compute; reflexivity).
  assert (Ht : stored threeParties "TaxAuth"
               = Some (mkParticipant "participant" "TaxAuth" "taxauth" 0))
    by (vm_compute; reflexivity).
  exact (transferPoints_total threeParties "Alice" "Bob" "100" [] _ _
           Hok Hr Ht ltac:(distinct_keys) ltac:(distinct_keys)
           ltac:(distinct_keys) ltac:(distinct_keys)
           ltac:(order_by_evaluation) ltac:(fits_by_evaluation)
           ltac:(fits_by_evaluation) ltac:(fits_by_evaluation)).
Defined.

(** Alice's key holds a value after a transfer and a failed creation. *)
Lemma run_keeps_keys_witness :
  is_Some (State (run [("transferPoints", ["Alice"; "Bob"; "500"]);
                       ("initParty", ["Alice"; "Other"; "1"])] threeParties)
             !! "Alice").
Proof.
  assert (Hkey : State threeParties !! "Alice"
                 = Some (Marshal (mkParticipant "participant" "Alice" "normal" 500)))
    by (vm_compute; reflexivity).
  exact (run_keeps_keys _ threeParties "Alice" (ex_intro _ _ Hkey)).
Defined.

(** The ledger after three creations and a transfer is keyed. *)
Lemma reachable_keyed_witness :
  let calls := [("initParty", ["Alice"; "Normal"; "500"]);
                ("initParty", ["Bob"; "Normal"; "0"]);
                ("initParty", ["TaxAuth"; "TaxAuth"; "0"]);
                ("transferPoints", ["Alice"; "Bob"; "100"])] in
  reachable (journal calls newStub []) (run calls newStub) /\
  keyed (run calls newStub) /\
  forall key p, stored (run calls newStub) key = Some p ->
    Name p = utf8.coerce key /\ (Name p = key <-> utf8.ValidString key = true).
Proof.
  intros calls.
  assert (Hreach : reachable (journal calls newStub []) (run calls newStub))
    by exact (run_reachable calls [] newStub
                (reachable_new (fun _ => None) (fun _ => None))).
  split; [exact Hreach | exact (reachable_keyed _ _ Hreach)].
Defined.

(** On the ledger of the three parties Alice can send herself -51 points,
    and cannot send 501. *)
Lemma reachable_transfer_succeeds_iff_witness :
  fst (transferPoints threeParties ["Alice"; "Alice"; "-51"]) = Success None /\
  fst (transferPoints threeParties ["Alice"; "Bob"; "501"]) <> Success None.
Proof.
  assert (Hreach : reachable
            (journal [("initParty", ["Alice"; "Normal"; "500"]);
                      ("initParty", ["Bob"; "Normal"; "0"]);
                      ("initParty", ["TaxAuth"; "TaxAuth"; "0"])] newStub [])
            threeParties)
    by exact (run_reachable _ [] newStub
                (reachable_new (fun _ => None) (fun _ => None))).
  assert (Hrel : reliable threeParties) by (split; intros key; reflexivity).
  assert (Hb : balanceOf threeParties "Alice" = Some 500)
    by (vm_compute; reflexivity).
  assert (Ha : State threeParties !! "Alice"
               = Some (Marshal (mkParticipant "participant" "Alice" "normal" 500)))
    by (vm_compute; reflexivity).
  assert (Hbob : State threeParties !! "Bob"
               = Some (Marshal (mkParticipant "participant" "Bob" "normal" 0)))
    by (vm_compute; reflexivity).
  assert (Ht : State threeParties !! "TaxAuth"
               = Some (Marshal (mkParticipant "participant" "TaxAuth" "taxauth" 0)))
    by (vm_compute; reflexivity).
  split.
  - apply (proj2 (reachable_transfer_succeeds_iff _ threeParties "Alice" "Alice"
                    "-51" [] Hreach Hrel)).
    exists 500. split; [exact Hb |].
    split; [order_by_evaluation |].
    split; [exact (ex_intro _ _ Ha) | exact (ex_intro _ _ Ht)].
  - intros Hok.
    apply (proj1 (reachable_transfer_succeeds_iff _ threeParties "Alice" "Bob"
                    "501" [] Hreach Hrel)) in Hok.
    destruct Hok as (b & Hb' & Hle & _).
    rewrite Hb in Hb'. injection Hb' as <-.
    vm_compute in Hle. apply Hle. reflexivity.
Defined.

(** Alice can be created on the empty ledger. *)
Lemma initParty_succeeds_iff_witness :
  fst (initParty newStub ["Alice"; "Normal"; "500"]) = Success None.
Proof.
  apply (proj2 (initParty_succeeds_iff newStub ["Alice"; "Normal"; "500"])).
  exists "Alice", "Normal", "500".
  split; [reflexivity |]. split; [distinct_keys |]. split; [distinct_keys |].
  split; [distinct_keys |]. split; [vm_compute; reflexivity |].
  split; [reflexivity |]. split; reflexivity.
Defined.

(** Reading Alice returns the bytes stored for her. *)
Lemma readParty_payload_witness :
  fst (readParty threeParties ["Alice"])
  = Success (Some (Marshal (mkParticipant "participant" "Alice" "normal" 500))).
Proof.
  assert (Ha : State threeParties !! "Alice"
               = Some (Marshal (mkParticipant "participant" "Alice" "normal" 500)))
    by (vm_compute; reflexivity).
  apply (proj2 (proj2 (readParty_payload threeParties ["Alice"]) _)).
  exists "Alice", (Marshal (mkParticipant "participant" "Alice" "normal" 500)).
  split; [reflexivity |]. split; [reflexivity |]. split; [exact Ha | reflexivity].
Defined.
